(** * The scan-result pipeline of trivy: aggregation, summarisation, dispatch

    A shallow embedding of

    - [pkg/k8s/report] ([Report.Failed], [Report.consolidate],
      [Resource.fullname], [createResource]),
    - [pkg/report/table.go] ([summary], [countSeverities], [reverseDeps],
      [addParents], [renderDependencyTree]),
    - [pkg/rpc/client] ([Scanner.Scan]),
    - the rows of the vulnerability table ([setVulnerabilityRows],
      [ColorizeSeverity]) and the Gradle lockfile parser ([Parser.Parse]),

    with Go maps as [gmap], Go slices as lists, Go strings as byte strings
    and Go's [int] as [Z] with its wrap-around written out. *)

From Stdlib Require Import ZArith Lia.
From stdpp Require Import base option list gmap strings fin_maps pretty.

Local Open Scope string_scope.
Local Open Scope list_scope.

#[local] Set Warnings "-clear-no-such-hyp".

(** ** Go's [int] (64 bits, two's complement) *)
Module goint.

Definition wrap (z : Z) : Z := ((z + 2 ^ 63) `mod` 2 ^ 64 - 2 ^ 63)%Z.

Definition add (a b : Z) : Z := wrap (a + b).

(** [fmt.Sprintf("%d", n)] *)
Definition format (n : Z) : string := pretty n.

End goint.

(** ** Go's [error] values, with [xerrors.Errorf("...: %w", err)] *)
Module xerrors.

Inductive error : Type :=
| New (msg : string)
| Errorf_w (context : string) (cause : error).

(** [err.Error()] *)
Fixpoint Error (e : error) : string :=
  match e with
  | New msg => msg
  | Errorf_w context cause => context +:+ ": " +:+ Error cause
  end.

(** [errors.Unwrap] *)
Definition Unwrap (e : error) : option error :=
  match e with
  | New _ => None
  | Errorf_w _ cause => Some cause
  end.

End xerrors.

(** ** [lo.Uniq]: drop repeated elements, keeping each first occurrence *)
Fixpoint Uniq_go (seen : gset string) (l : list string) : list string :=
  match l with
  | [] => []
  | x :: l' =>
      if decide (x ∈ seen) then Uniq_go seen l'
      else x :: Uniq_go ({[x]} ∪ seen) l'
  end.

Definition Uniq (l : list string) : list string := Uniq_go ∅ l.

(** ** [pkg/types] and [fanal/types]: the records the pipeline consumes *)
Module types.

(** Modelled from the spec: the misconfiguration status constants
    ([types.StatusFailure] and its siblings are declared outside the files at
    hand); the spec names failure, success and exception. *)
Inductive MisconfStatus : Type :=
| StatusPassed
| StatusFailure
| StatusException.

#[global] Instance MisconfStatus_eq_dec : EqDecision MisconfStatus.
Proof. solve_decision. Defined.

Record DetectedVulnerability : Type := {
  VulnerabilityID : string;
  PkgID : string;
  PkgName : string;
  vuln_Severity : string;
}.

Record DetectedMisconfiguration : Type := {
  misconf_ID : string;
  Status : MisconfStatus;
  misconf_Severity : string;
}.

Record SecretFinding : Type := {
  RuleID : string;
  secret_Severity : string;
}.

Record Package : Type := {
  ID : string;
  DependsOn : list string;
}.

Record Result : Type := {
  Target : string;
  Class : string;
  Type_ : string;
  Packages : list Package;
  Vulnerabilities : list DetectedVulnerability;
  Misconfigurations : list DetectedMisconfiguration;
  Secrets : list SecretFinding;
}.

Record Report : Type := {
  ArtifactName : string;
  Results : list Result;
}.

(** The zero value of [types.Report]. *)
Definition Report_zero : Report := {| ArtifactName := ""; Results := [] |}.

(** [ftypes.Kubernetes] *)
Definition Kubernetes : string := "kubernetes".

(** [types.ScanOptions], as [Scanner.Scan] reads it. *)
Record ScanOptions : Type := {
  VulnType : list string;
  SecurityChecks : list string;
  ListAllPackages : bool;
}.

(** [ftypes.OS] *)
Record OS : Type := {
  Family : string;
  OS_Name : string;
}.

End types.

(** ** [pkg/k8s/report] *)
Module k8s.

Record Resource : Type := {
  Namespace : string;
  Kind : string;
  Name : string;
  Results : list types.Result;
  Error : string;
  (* original report *)
  Resource_Report : types.Report;
}.

Record Report : Type := {
  SchemaVersion : Z;
  ClusterName : string;
  Vulnerabilities : list Resource;
  Misconfigurations : list Resource;
}.

Record ConsolidatedReport : Type := {
  cons_SchemaVersion : Z;
  cons_ClusterName : string;
  Findings : list Resource;
}.

(** [artifacts.Artifact], as far as [createResource] reads it. *)
Record Artifact : Type := {
  art_Namespace : string;
  art_Kind : string;
  art_Name : string;
}.

Section Aggregator.

(** Go's [strings.ToLower] (Unicode aware) and the threshold check
    [types.Results.Failed] are library code: every result below holds for
    whatever functions they are. *)
Variable ToLower : string -> string.
Variable Results_Failed : list types.Result -> bool.

Definition fullname (r : Resource) : string :=
  ToLower (Namespace r +:+ "/" +:+ Kind r +:+ "/" +:+ Name r).

(** One [for ... range] loop of [Failed]: return at the first failing
    resource. *)
Fixpoint any_Failed (rs : list Resource) : bool :=
  match rs with
  | [] => false
  | r :: rs' => if Results_Failed (Results r) then true else any_Failed rs'
  end.

Definition Failed (r : Report) : bool :=
  if any_Failed (Vulnerabilities r) then true
  else if any_Failed (Misconfigurations r) then true
  else false.

(** First loop of [consolidate]: [index[m.fullname()] = m]. *)
Definition index_misconfiguration
    (index : gmap string Resource) (m : Resource) : gmap string Resource :=
  <[fullname m := m]> index.

(** Body of the second loop of [consolidate]. *)
Definition merge_vulnerability
    (index : gmap string Resource) (v : Resource) : gmap string Resource :=
  let key := fullname v in
  match index !! key with
  | Some r =>
      <[key := {| Namespace := Namespace r;
                  Kind := Kind r;
                  Name := Name r;
                  Results := Results r ++ Results v;
                  Error := Error r;
                  Resource_Report := types.Report_zero |}]> index
  | None => <[key := v]> index
  end.

Definition consolidate_index (r : Report) : gmap string Resource :=
  foldl merge_vulnerability
    (foldl index_misconfiguration ∅ (Misconfigurations r))
    (Vulnerabilities r).

(** [maps.Values(index)] returns the values in an unspecified order; the
    order of [map_to_list] stands for one of them, and nothing below depends
    on it. *)
Definition consolidate (r : Report) : ConsolidatedReport :=
  {| cons_SchemaVersion := SchemaVersion r;
     cons_ClusterName := ClusterName r;
     Findings := (map_to_list (consolidate_index r)).*2 |}.

(** The loop of [createResource]: a kubernetes result gets the target
    [kind/name], and every result is appended. *)
Definition fix_target (artifact : Artifact) (result : types.Result) : types.Result :=
  if decide (types.Type_ result = types.Kubernetes) then
    {| types.Target := art_Kind artifact +:+ "/" +:+ art_Name artifact;
       types.Class := types.Class result;
       types.Type_ := types.Type_ result;
       types.Packages := types.Packages result;
       types.Vulnerabilities := types.Vulnerabilities result;
       types.Misconfigurations := types.Misconfigurations result;
       types.Secrets := types.Secrets result |}
  else result.

Definition createResource
    (artifact : Artifact) (report : types.Report) (err : option xerrors.error)
  : Resource :=
  let results :=
    foldl (fun results result => results ++ [fix_target artifact result])
          [] (types.Results report) in
  let r := {| Namespace := art_Namespace artifact;
              Kind := art_Kind artifact;
              Name := art_Name artifact;
              Results := results;
              Error := "";
              Resource_Report := report |} in
  match err with
  | Some e =>
      {| Namespace := Namespace r; Kind := Kind r; Name := Name r;
         Results := Results r; Error := xerrors.Error e;
         Resource_Report := Resource_Report r |}
  | None => r
  end.

End Aggregator.

End k8s.

(** ** [trivy-db/pkg/types]: severities *)
Module dbTypes.

(** Modelled from the spec: the severity enumeration and the global
    severity-name list of the vulnerability database package, in its fixed
    ascending-risk order (the order also written next to [SeverityColor] in
    [table.go]: UNKNOWN, LOW, MEDIUM, HIGH, CRITICAL). *)
Inductive Severity : Type :=
| SeverityUnknown
| SeverityLow
| SeverityMedium
| SeverityHigh
| SeverityCritical.

Definition SeverityNames : list string :=
  ["UNKNOWN"; "LOW"; "MEDIUM"; "HIGH"; "CRITICAL"].

Definition to_nat (s : Severity) : nat :=
  match s with
  | SeverityUnknown => 0
  | SeverityLow => 1
  | SeverityMedium => 2
  | SeverityHigh => 3
  | SeverityCritical => 4
  end.

(** [func (s Severity) String() string { return SeverityNames[s] }] *)
Definition String (s : Severity) : string :=
  default "" (SeverityNames !! to_nat s).

End dbTypes.

(** ** [github.com/xlab/treeprint]: a tree of labelled branches *)
Module treeprint.

#[local] Set Warnings "-register-all".
Inductive Tree : Type :=
| Node (value : string) (branches : list Tree).

Definition value (t : Tree) : string := let 'Node v _ := t in v.
Definition branches (t : Tree) : list Tree := let 'Node _ bs := t in bs.

End treeprint.

(** ** [pkg/report/table.go] *)
Module report.

Record TableWriter : Type := {
  Severities : list dbTypes.Severity;
  (* Show dependency origin tree *)
  Tree : bool;
  (* For misconfigurations *)
  IncludeNonFailures : bool;
  Trace : bool;
  (* what [isOutputToTerminal] answers for [Output] *)
  isOutputToTerminal : bool;
}.

(** [severityCount[k]], zero for a missing key. *)
Definition count_of (severityCount : gmap string Z) (k : string) : Z :=
  default 0%Z (severityCount !! k).

(** [severityCount[k]++] *)
Definition incr (severityCount : gmap string Z) (k : string) : gmap string Z :=
  <[k := goint.add (count_of severityCount k) 1]> severityCount.

(** Body of the second loop of [summary]; the state is [(total, summaries)]. *)
Definition summary_step
    (severities : list string) (severityCount : gmap string Z)
    (st : Z * list string) (severity : string) : Z * list string :=
  if decide (severity ∈ severities) then
    let count := count_of severityCount severity in
    let r := severity +:+ ": " +:+ goint.format count in
    (goint.add st.1 count, st.2 ++ [r])
  else st.

Definition summary (tw : TableWriter) (severityCount : gmap string Z)
  : Z * list string :=
  let severities :=
    foldl (fun severities sev => severities ++ [dbTypes.String sev])
          [] (Severities tw) in
  foldl (summary_step severities severityCount) (0%Z, []) dbTypes.SeverityNames.

Definition countSeverities (result : types.Result) : gmap string Z :=
  let severityCount : gmap string Z := ∅ in
  let severityCount :=
    foldl (fun severityCount misconf =>
             if decide (types.Status misconf = types.StatusFailure)
             then incr severityCount (types.misconf_Severity misconf)
             else severityCount)
          severityCount (types.Misconfigurations result) in
  let severityCount :=
    foldl (fun severityCount secret =>
             incr severityCount (types.secret_Severity secret))
          severityCount (types.Secrets result) in
  foldl (fun severityCount v => incr severityCount (types.vuln_Severity v))
        severityCount (types.Vulnerabilities result).

(** First loop of [reverseDeps]: record [lib] as a parent of [dependOn]. *)
Definition add_parent
    (lib : types.Package) (reversed : gmap string (list string))
    (dependOn : string) : gmap string (list string) :=
  match reversed !! dependOn with
  | None => <[dependOn := [types.ID lib]]> reversed
  | Some items => <[dependOn := items ++ [types.ID lib]]> reversed
  end.

Definition reverseDeps (libs : list types.Package) : gmap string (list string) :=
  let reversed :=
    foldl (fun reversed lib =>
             foldl (add_parent lib) reversed (types.DependsOn lib))
          ∅ libs in
  Uniq <$> reversed.

(** [addParents] returns nothing and grows [topItem] in place; here it
    returns the branches it adds to [topItem], in order.  The recursion of
    the source has no bound: [fuel] bounds the depth of nested calls, and
    [None] says that the walk needs a deeper stack than [fuel]. *)
Fixpoint addParents
    (fuel : nat) (pkgID : string) (parentMap : gmap string (list string))
  : option (list treeprint.Tree) :=
  match fuel with
  | O => None
  | S fuel' =>
      match parentMap !! pkgID with
      | None => Some []
      | Some parents =>
          mapM (fun parent =>
                  treeprint.Node parent <$> addParents fuel' parent parentMap)
               parents
      end
  end.

Section Rendering.

(** [color.HiRedString] of the colour library. *)
Variable HiRedString : string -> string.

(** First loop of [renderDependencyTree]. *)
Definition count_pkg_severity
    (pkgSeverityCount : gmap string (gmap string Z))
    (vuln : types.DetectedVulnerability) : gmap string (gmap string Z) :=
  let cnts := default ∅ (pkgSeverityCount !! types.PkgID vuln) in
  <[types.PkgID vuln := incr cnts (types.vuln_Severity vuln)]> pkgSeverityCount.

Definition topLvlID
    (tw : TableWriter) (pkgSeverityCount : gmap string (gmap string Z))
    (pkgID : string) : string :=
  let summaries := (summary tw (default ∅ (pkgSeverityCount !! pkgID))).2 in
  let topLvlID := pkgID +:+ ", (" +:+ String.concat ", " summaries +:+ ")" in
  if isOutputToTerminal tw then HiRedString topLvlID else topLvlID.

(** Second loop of [renderDependencyTree]: the branches added to the root. *)
Fixpoint render_branches
    (fuel : nat) (tw : TableWriter) (parents : gmap string (list string))
    (pkgSeverityCount : gmap string (gmap string Z))
    (seen : gset string) (vulns : list types.DetectedVulnerability)
  : option (list treeprint.Tree) :=
  match vulns with
  | [] => Some []
  | vuln :: vulns' =>
      if decide (types.PkgID vuln ∈ seen) then
        render_branches fuel tw parents pkgSeverityCount seen vulns'
      else
        match addParents fuel (types.PkgID vuln) parents with
        | None => None
        | Some above =>
            cons (treeprint.Node (topLvlID tw pkgSeverityCount (types.PkgID vuln)) above)
              <$> render_branches fuel tw parents pkgSeverityCount
                    ({[types.PkgID vuln]} ∪ seen) vulns'
        end
  end.

Definition tree_header (target : string) : string :=
  "
Dependency Origin Tree
======================
" +:+ target.

(** [None]: the walk needs a deeper stack than [fuel]; [Some None]: the
    early return, nothing is printed; [Some (Some root)]: the tree whose
    text is printed. *)
Definition renderDependencyTree
    (fuel : nat) (tw : TableWriter) (result : types.Result)
  : option (option treeprint.Tree) :=
  let parents := reverseDeps (types.Packages result) in
  if decide (size parents = 0) then Some None
  else
    let pkgSeverityCount :=
      foldl count_pkg_severity ∅ (types.Vulnerabilities result) in
    match render_branches fuel tw parents pkgSeverityCount ∅
            (types.Vulnerabilities result) with
    | None => None
    | Some bs => Some (Some (treeprint.Node (tree_header (types.Target result)) bs))
    end.

End Rendering.

End report.

(** ** [rpc/scanner]: the wire messages of the scan service *)
Module rpc.

Record ScanOptions : Type := {
  VulnType : list string;
  SecurityChecks : list string;
  ListAllPackages : bool;
}.

Record ScanRequest : Type := {
  Target : string;
  ArtifactId : string;
  BlobIds : list string;
  Options : option ScanOptions;
}.

(** The response; its result and OS messages are converted by [pkg/rpc]. *)
Record ScanResponse (Result OS : Type) : Type := {
  Os : option OS;
  Results : list Result;
}.
Arguments Os {Result OS} _.
Arguments Results {Result OS} _.

End rpc.

(** ** [pkg/rpc/client] *)
Module client.

(** [http.Header] *)
Abbreviation Header := (gmap string (list string)).

Section Dispatcher.

Context {rpcResult rpcOS : Type}.

(** [r.ConvertFromRPCResults] and [r.ConvertFromRPCOS] of [pkg/rpc]. *)
Variable ConvertFromRPCResults : list rpcResult -> list types.Result.
Variable ConvertFromRPCOS : option rpcOS -> option types.OS.

(** One call that reaches the remote service: the headers carried by the
    context and the request. *)
Definition Call : Type := Header * rpc.ScanRequest.

(** What one call returns: a response or an error. *)
Definition Reply : Type := rpc.ScanResponse rpcResult rpcOS + xerrors.error.

(** The remote service ([rpc.Scanner]): its answer may depend on every call
    made so far. *)
Definition Service : Type := list Call -> Call -> Reply.

Record Scanner : Type := {
  customHeaders : Header;
  client : Service;
}.

Definition NewScanner (customHeaders : Header) (s : Service) : Scanner :=
  {| customHeaders := customHeaders; client := s |}.

(** Modelled from the spec: [r.Retry] of [pkg/rpc] (not among the files at
    hand).  On a transient failure it calls [f] again, a bounded number of
    times ([budget] retries after the first call); it stops at the first
    success and at the first failure that is not transient, and returns the
    error of the last call. *)
Fixpoint Retry {St : Type}
    (transient : xerrors.error -> bool) (budget : nat)
    (f : St -> St * option xerrors.error) (st : St)
  : St * option xerrors.error :=
  let '(st', err) := f st in
  match err, budget with
  | None, _ => (st', None)
  | Some e, O => (st', Some e)
  | Some e, S budget' =>
      if transient e then Retry transient budget' f st' else (st', Some e)
  end.

Variable transient : xerrors.error -> bool.
Variable maxRetries : nat.

Inductive ScanResult : Type :=
| Returned (results : option (list types.Result)) (os : option types.OS)
           (err : option xerrors.error)
| Panic.

(** The request [Scan] builds. *)
Definition request
    (target artifactKey : string) (blobKeys : list string)
    (options : types.ScanOptions) : rpc.ScanRequest :=
  {| rpc.Target := target;
     rpc.ArtifactId := artifactKey;
     rpc.BlobIds := blobKeys;
     rpc.Options :=
       Some {| rpc.VulnType := types.VulnType options;
               rpc.SecurityChecks := types.SecurityChecks options;
               rpc.ListAllPackages := types.ListAllPackages options |} |}.

(** The closure handed to [r.Retry]: its state is the calls made so far and
    the captured variable [res]. *)
Definition attempt
    (s : Scanner) (target artifactKey : string) (blobKeys : list string)
    (options : types.ScanOptions)
    (st : list Call * option (rpc.ScanResponse rpcResult rpcOS))
  : (list Call * option (rpc.ScanResponse rpcResult rpcOS))
    * option xerrors.error :=
  let ctx := customHeaders s in
  let call := (ctx, request target artifactKey blobKeys options) in
  match client s st.1 call with
  | inl res => ((st.1 ++ [call], Some res), None)
  | inr err => ((st.1 ++ [call], None), Some err)
  end.

(** [Scan], started after the calls [sent]; it returns the calls made and
    what the caller receives. *)
Definition Scan
    (s : Scanner) (target artifactKey : string) (blobKeys : list string)
    (options : types.ScanOptions) (sent : list Call)
  : list Call * ScanResult :=
  let '((sent', res), err) :=
    Retry transient maxRetries
      (attempt s target artifactKey blobKeys options) (sent, None) in
  match err with
  | Some err =>
      (sent', Returned None None
                (Some (xerrors.Errorf_w
                         "failed to detect vulnerabilities via RPC" err)))
  | None =>
      match res with
      | Some res =>
          (sent', Returned (Some (ConvertFromRPCResults (rpc.Results res)))
                    (ConvertFromRPCOS (rpc.Os res)) None)
      | None => (sent', Panic)
      end
  end.

End Dispatcher.

End client.

(** ** Vocabulary of the statements *)
Module vocabulary.

(** The entry [consolidate] writes when a vulnerability resource meets an
    indexed one: identity and error of [existing], the given results, and the
    zero [Report]. *)
Definition merged_entry
    (existing : k8s.Resource) (results : list types.Result) : k8s.Resource :=
  {| k8s.Namespace := k8s.Namespace existing;
     k8s.Kind := k8s.Kind existing;
     k8s.Name := k8s.Name existing;
     k8s.Results := results;
     k8s.Error := k8s.Error existing;
     k8s.Resource_Report := types.Report_zero |}.

(** Every entry of the index is stored under its own canonical key. *)
Definition keyed
    (ToLower : string -> string) (index : gmap string k8s.Resource) : Prop :=
  forall k e, index !! k = Some e -> k8s.fullname ToLower e = k.

(** Every result of every entry of the index comes from a resource of
    [inputs] that has the entry's key. *)
Definition sourced
    (ToLower : string -> string) (inputs : list k8s.Resource)
    (index : gmap string k8s.Resource) : Prop :=
  forall k e x,
    index !! k = Some e -> x ∈ k8s.Results e ->
    exists i, i ∈ inputs /\ k8s.fullname ToLower i = k /\ x ∈ k8s.Results i.

(** How a count map stores a tally of [n] occurrences: no key for zero, the
    [int] that [n] increments reach otherwise. *)
Definition counted (n : nat) : option Z :=
  if decide (n = 0) then None else Some (goint.wrap (Z.of_nat n)).

(** One entry of the summary line: [fmt.Sprintf("%s: %d", severity, count)]. *)
Definition summary_entry (severityCount : gmap string Z) (severity : string)
  : string :=
  severity +:+ ": " +:+ goint.format (report.count_of severityCount severity).

(** The sum of a list of integers. *)
Definition sum (l : list Z) : Z := foldr Z.add 0%Z l.

(** The severity tally of a list of vulnerabilities, as the loops of
    [countSeverities] and [renderDependencyTree] build it. *)
Definition tally_vulnerabilities
    (vulns : list types.DetectedVulnerability) : gmap string Z :=
  foldl (fun severityCount v => report.incr severityCount (types.vuln_Severity v))
        ∅ vulns.

(** The ASCII part of [strings.ToLower], for concrete runs. *)
Definition ascii_lower (c : Ascii.ascii) : Ascii.ascii :=
  let n := Ascii.nat_of_ascii c in
  if (65 <=? n)%nat && (n <=? 90)%nat then Ascii.ascii_of_nat (n + 32) else c.

Fixpoint ascii_ToLower (s : string) : string :=
  match s with
  | EmptyString => EmptyString
  | String c s' => String (ascii_lower c) (ascii_ToLower s')
  end.

End vocabulary.

(** ** Concrete inputs, for running the definitions *)
Module examples.

(** A misconfiguration-side result [M] and a vulnerability-side result [V]. *)
Definition M : types.Result :=
  {| types.Target := "Pod/a";
     types.Class := "config";
     types.Type_ := "kubernetes";
     types.Packages := [];
     types.Vulnerabilities := [];
     types.Misconfigurations :=
       [{| types.misconf_ID := "KSV001";
           types.Status := types.StatusFailure;
           types.misconf_Severity := "HIGH" |}];
     types.Secrets := [] |}.

Definition V : types.Result :=
  {| types.Target := "nginx:1.21";
     types.Class := "os-pkgs";
     types.Type_ := "debian";
     types.Packages := [];
     types.Vulnerabilities :=
       [{| types.VulnerabilityID := "CVE-2022-0001";
           types.PkgID := "openssl@1.1.1";
           types.PkgName := "openssl";
           types.vuln_Severity := "CRITICAL" |}];
     types.Misconfigurations := [];
     types.Secrets := [] |}.

Definition misconfig_resource : k8s.Resource :=
  {| k8s.Namespace := "default"; k8s.Kind := "Pod"; k8s.Name := "a";
     k8s.Results := [M]; k8s.Error := "";
     k8s.Resource_Report := types.Report_zero |}.

(** The same identity in another letter case, with a scan error. *)
Definition vulnerability_resource : k8s.Resource :=
  {| k8s.Namespace := "Default"; k8s.Kind := "pod"; k8s.Name := "A";
     k8s.Results := [V]; k8s.Error := "image pull failed";
     k8s.Resource_Report := types.Report_zero |}.

Definition merge_report : k8s.Report :=
  {| k8s.SchemaVersion := 0;
     k8s.ClusterName := "minikube";
     k8s.Vulnerabilities := [vulnerability_resource];
     k8s.Misconfigurations := [misconfig_resource] |}.

(** Two resources with identities of their own next to the pair that shares
    one. *)
Definition end_to_end_report : k8s.Report :=
  {| k8s.SchemaVersion := 2;
     k8s.ClusterName := "minikube";
     k8s.Vulnerabilities :=
       [{| k8s.Namespace := "default"; k8s.Kind := "Deployment";
           k8s.Name := "web"; k8s.Results := [V]; k8s.Error := "";
           k8s.Resource_Report := types.Report_zero |};
        vulnerability_resource];
     k8s.Misconfigurations :=
       [{| k8s.Namespace := "kube-system"; k8s.Kind := "ConfigMap";
           k8s.Name := "dns"; k8s.Results := [M]; k8s.Error := "";
           k8s.Resource_Report := types.Report_zero |};
        misconfig_resource] |}.

(** A threshold check for concrete runs: a result with a vulnerability or a
    failed misconfiguration fails. *)
Definition Results_Failed (results : list types.Result) : bool :=
  existsb
    (fun r =>
       negb (bool_decide (types.Vulnerabilities r = []))
       || existsb (fun m => bool_decide (types.Status m = types.StatusFailure))
                  (types.Misconfigurations r))
    results.

(** A remote service that is unavailable for its first two calls and then
    answers with no findings. *)
Definition flaky_service : @client.Service unit unit :=
  fun sent _ =>
    if decide (length sent < 2) then inr (xerrors.New "unavailable")
    else inl {| rpc.Os := None; rpc.Results := [] |}.

Definition scan_options : types.ScanOptions :=
  {| types.VulnType := ["os"; "library"];
     types.SecurityChecks := ["vuln"];
     types.ListAllPackages := true |}.

(** The counts and the allow-list of the spec's severity-filter example. *)
Definition filter_counts : gmap string Z :=
  <["LOW" := 2%Z]> (<["HIGH" := 3%Z]> (<["CRITICAL" := 1%Z]> ∅)).

Definition filter_writer : report.TableWriter :=
  {| report.Severities := [dbTypes.SeverityCritical; dbTypes.SeverityHigh];
     report.Tree := true;
     report.IncludeNonFailures := false;
     report.Trace := false;
     report.isOutputToTerminal := false |}.

(** A target whose application pulls in a library that pulls in openssl;
    openssl has three vulnerabilities, met before and after the library's. *)
Definition tree_packages : list types.Package :=
  [{| types.ID := "app@1.0"; types.DependsOn := ["lib@2.3"] |};
   {| types.ID := "lib@2.3"; types.DependsOn := ["openssl@1.1.1"] |};
   {| types.ID := "openssl@1.1.1"; types.DependsOn := [] |}].

Definition vulnerability (id pkgID severity : string)
  : types.DetectedVulnerability :=
  {| types.VulnerabilityID := id; types.PkgID := pkgID;
     types.PkgName := pkgID; types.vuln_Severity := severity |}.

Definition tree_result : types.Result :=
  {| types.Target := "package-lock.json";
     types.Class := "lang-pkgs";
     types.Type_ := "npm";
     types.Packages := tree_packages;
     types.Vulnerabilities :=
       [vulnerability "CVE-1" "openssl@1.1.1" "HIGH";
        vulnerability "CVE-2" "lib@2.3" "HIGH";
        vulnerability "CVE-3" "openssl@1.1.1" "CRITICAL";
        vulnerability "CVE-4" "openssl@1.1.1" "HIGH"];
     types.Misconfigurations := [];
     types.Secrets := [] |}.

(** The tree printed for [tree_result]. *)
Definition tree_root : treeprint.Tree :=
  treeprint.Node (report.tree_header "package-lock.json")
    [treeprint.Node "openssl@1.1.1, (HIGH: 2, CRITICAL: 1)"
       [treeprint.Node "lib@2.3" [treeprint.Node "app@1.0" []]];
     treeprint.Node "lib@2.3, (HIGH: 1, CRITICAL: 0)"
       [treeprint.Node "app@1.0" []]].

(** The cycle of the spec: A depends on B, B on C, C on A. *)
Definition cyclic_packages : list types.Package :=
  [{| types.ID := "A"; types.DependsOn := ["B"] |};
   {| types.ID := "B"; types.DependsOn := ["C"] |};
   {| types.ID := "C"; types.DependsOn := ["A"] |}].

Definition cyclic_result : types.Result :=
  {| types.Target := "go.mod";
     types.Class := "lang-pkgs";
     types.Type_ := "gomod";
     types.Packages := cyclic_packages;
     types.Vulnerabilities := [vulnerability "CVE-5" "A" "HIGH"];
     types.Misconfigurations := [];
     types.Secrets := [] |}.

End examples.

(** ** Go's [strings] package, as far as the files at hand call it *)
Module gostrings.

(** The separators the sources split on: [" "], [":"] and ["="]. *)
Definition space : Ascii.ascii := Ascii.ascii_of_nat 32.
Definition colon : Ascii.ascii := Ascii.ascii_of_nat 58.
Definition equals : Ascii.ascii := Ascii.ascii_of_nat 61.

(** [strings.Split(s, sep)] for a separator of one byte. *)
Fixpoint Split (s : string) (sep : Ascii.ascii) : list string :=
  match s with
  | EmptyString => [""]
  | String c s' =>
      if decide (c = sep) then "" :: Split s' sep
      else match Split s' sep with
           | piece :: pieces => String c piece :: pieces
           | [] => [String c ""]
           end
  end.

(** [strings.Join(elems, sep)] *)
Definition Join (elems : list string) (sep : string) : string :=
  String.concat sep elems.

(** [strings.HasPrefix(s, prefix)] *)
Definition HasPrefix (s prefix : string) : bool := String.prefix prefix s.

(** Whether the byte [c] occurs in [s]. *)
Fixpoint contains (c : Ascii.ascii) (s : string) : bool :=
  match s with
  | EmptyString => false
  | String c' s' => if decide (c' = c) then true else contains c s'
  end.

(** The ASCII part of [strings.TrimSpace], for concrete runs. *)
Definition is_space (c : Ascii.ascii) : bool :=
  let n := Ascii.nat_of_ascii c in
  ((9 <=? n)%nat && (n <=? 13)%nat) || (n =? 32)%nat.

Fixpoint trim_left (s : string) : string :=
  match s with
  | EmptyString => EmptyString
  | String c s' => if is_space c then trim_left s' else s
  end.

Fixpoint trim_right (s : string) : string :=
  match s with
  | EmptyString => EmptyString
  | String c s' =>
      match trim_right s' with
      | EmptyString => if is_space c then EmptyString else String c EmptyString
      | t => String c t
      end
  end.

Definition ascii_TrimSpace (s : string) : string := trim_right (trim_left s).

End gostrings.

(** ** [pkg/report/table.go]: the rows of the vulnerability table *)
Module rows.

(** The fields of [types.DetectedVulnerability] that the table shows. *)
Record Vulnerability : Type := {
  PkgName : string;
  PkgPath : string;
  VulnerabilityID : string;
  Severity : string;
  InstalledVersion : string;
  FixedVersion : string;
  Title : string;
  Description : string;
  PrimaryURL : string;
}.

(** What the rows are written to: the table, the shared [ShowMessageOnce]
    and the log. *)
Record Output : Type := {
  table : list (list string);
  once_done : bool;
  logged : list string;
}.

Definition filename_message : string :=
  "Table result includes only package filenames. Use '--format json' option to get the full path to the package file.".

(** [tw.ShowMessageOnce.Do(func() { log.Logger.Infof(...) })] *)
Definition ShowMessageOnce_Do (out : Output) : Output :=
  if once_done out then out
  else {| table := table out; once_done := true;
          logged := logged out ++ [filename_message] |}.

Definition AddRow (row : list string) (out : Output) : Output :=
  {| table := table out ++ [row]; once_done := once_done out;
     logged := logged out |}.

(** The title before the URL is added: the title, or the description when
    the title is empty, cut after twelve pieces. *)
Definition cut_title (Title Description : string) : string :=
  let title := Title in
  let title := if decide (title = "") then Description else title in
  let splitTitle := gostrings.Split title gostrings.space in
  if decide (12 <= length splitTitle)
  then gostrings.Join (take 12 splitTitle) " " +:+ "..."
  else title.

Section Rows.

(** [filepath.Base], [strings.TrimSpace] (Unicode aware), the markup of
    [tml.Sprintf] for a title and its URL, and the colour functions of the
    colour library. *)
Variable filepath_Base : string -> string.
Variable TrimSpace : string -> string.
Variable tml_title_url : string -> string -> string.
Variables FgCyan FgBlue FgYellow FgHiRed FgRed : string -> string.

Definition SeverityColor : list (string -> string) :=
  [FgCyan;   (* UNKNOWN *)
   FgBlue;   (* LOW *)
   FgYellow; (* MEDIUM *)
   FgHiRed;  (* HIGH *)
   FgRed].   (* CRITICAL *)

(** The loop of [ColorizeSeverity], from index [i]; [None] is the panic of
    an index out of range. *)
Fixpoint ColorizeSeverity_from
    (i : nat) (names : list string) (value severity : string)
  : option string :=
  match names with
  | [] => Some (FgBlue severity)
  | name :: names' =>
      if decide (severity = name) then
        (fun colour => colour value) <$> (SeverityColor !! i)
      else ColorizeSeverity_from (S i) names' value severity
  end.

Definition ColorizeSeverity (value severity : string) : option string :=
  ColorizeSeverity_from 0 dbTypes.SeverityNames value severity.

(** One turn of the loop of [setVulnerabilityRows]; [None] is a panic of
    [ColorizeSeverity]. *)
Definition setVulnerabilityRow
    (terminal : bool) (out : Output) (v : Vulnerability) : option Output :=
  let lib := PkgName v in
  let '(lib, out) :=
    if decide (PkgPath v = "") then (lib, out)
    else
      let fileName := filepath_Base (PkgPath v) in
      (PkgName v +:+ " (" +:+ fileName +:+ ")", ShowMessageOnce_Do out) in
  let title := cut_title (Title v) (Description v) in
  let title :=
    if decide (0 < String.length (PrimaryURL v)) then
      if terminal then tml_title_url title (PrimaryURL v)
      else title +:+ "
" +:+ PrimaryURL v
    else title in
  if terminal then
    severity ← ColorizeSeverity (Severity v) (Severity v);
    Some (AddRow [lib; VulnerabilityID v; severity; InstalledVersion v;
                  FixedVersion v; TrimSpace title] out)
  else
    Some (AddRow [lib; VulnerabilityID v; Severity v; InstalledVersion v;
                  FixedVersion v; TrimSpace title] out).

Fixpoint setVulnerabilityRows
    (terminal : bool) (out : Output) (vulns : list Vulnerability)
  : option Output :=
  match vulns with
  | [] => Some out
  | v :: vulns' =>
      out' ← setVulnerabilityRow terminal out v;
      setVulnerabilityRows terminal out' vulns'
  end.

(** The six headers [writeVulnerabilities] sets. *)
Definition vulnerability_header : list string :=
  ["Library"; "Vulnerability"; "Severity"; "Installed Version";
   "Fixed Version"; "Title"].

End Rows.

End rows.

(** ** The Gradle lockfile parser (the [lockfile] package that follows
    [table.go] in the same source file) *)
Module lockfile.

Record Location : Type := {
  StartLine : Z;
  EndLine : Z;
}.

(** [types.Relationship]; [Parse] writes [RelationshipUnknown] only. *)
Inductive Relationship : Type :=
| RelationshipUnknown.

Record Library : Type := {
  ID : string;
  Name : string;
  Version : string;
  Locations : list Location;
  Relationship_ : Relationship;
}.

Record Dependency : Type := {
  dep_ID : string;
  dep_DependsOn : list string;
}.

Section Parser.

(** [strings.TrimSpace] (Unicode aware), [dependency.ID] at [ftypes.Gradle]
    and [utils.UniqueLibraries] are code of other packages. *)
Variable TrimSpace : string -> string.
Variable dependency_ID : string -> string -> string.
Variable UniqueLibraries : list Library -> list Library.

(** The body of the loop after [lineNum++]: the library of one line, if the
    line has one.  [strings.Split] returns at least one piece, so the index
    [0] of the source is in range (see [Split_nonempty]). *)
Definition parse_line (lineNum : Z) (text : string) : option Library :=
  let line := TrimSpace text in
  if gostrings.HasPrefix line "#" then None (* skip comments *)
  else
    (* dependency format: group:artifact:version=classPaths *)
    let dep := gostrings.Split line gostrings.colon in
    if decide (length dep ≠ 3) then None
    else
      let name := gostrings.Join (take 2 dep) ":" in
      let version :=
        default "" (head (gostrings.Split (default "" (dep !! 2))
                                          gostrings.equals)) in
      Some {| ID := dependency_ID name version;
              Name := name;
              Version := version;
              Locations := [{| StartLine := lineNum; EndLine := lineNum |}];
              Relationship_ := RelationshipUnknown |}.

(** One turn of the loop; the state is [(lineNum, libs)]. *)
Definition scan_step (st : Z * list Library) (text : string)
  : Z * list Library :=
  let lineNum := goint.add st.1 1 in
  match parse_line lineNum text with
  | Some lib => (lineNum, st.2 ++ [lib])
  | None => (lineNum, st.2)
  end.

(** The libraries collected from the lines the scanner yields. *)
Definition collect (lines : list string) : list Library :=
  (foldl scan_step (0%Z, []) lines).2.

Definition Parse (lines : list string)
  : list Library * list Dependency * option xerrors.error :=
  (UniqueLibraries (collect lines), [], None).

End Parser.

End lockfile.

(** ** Vocabulary of the statements about the dependency walk *)
Module walks.

(** The parents recorded for a package: none when the map has no key. *)
Definition parents_of
    (parentMap : gmap string (list string)) (pkgID : string) : list string :=
  default [] (parentMap !! pkgID).

(** The identifiers of the packages that list [q] in [DependsOn], once per
    mention, in the order of the package list. *)
Definition mentions (q : string) (libs : list types.Package) : list string :=
  libs ≫= (fun lib =>
             (fun _ => types.ID lib) <$> filter (λ d, d = q) (types.DependsOn lib)).

(** A path that follows the parent map from a package up to a package
    without parents. *)
Fixpoint chain (parentMap : gmap string (list string)) (path : list string)
  : Prop :=
  match path with
  | [] => True
  | child :: above =>
      match above with
      | [] => parents_of parentMap child = []
      | parent :: _ =>
          parent ∈ parents_of parentMap child /\ chain parentMap above
      end
  end.

(** The severities of the findings [countSeverities] counts: those of the
    failed misconfigurations, of the secrets and of the vulnerabilities. *)
Definition counted_severities (result : types.Result) : list string :=
  (types.misconf_Severity
     <$> filter (λ m, types.Status m = types.StatusFailure)
                (types.Misconfigurations result))
  ++ (types.secret_Severity <$> types.Secrets result)
  ++ (types.vuln_Severity <$> types.Vulnerabilities result).

(** The label paths of a tree, from its root to each of its leaves. *)
Fixpoint paths (t : treeprint.Tree) : list (list string) :=
  match t with
  | treeprint.Node v bs =>
      match concat (List.map paths bs) with
      | [] => [[v]]
      | ps => List.map (cons v) ps
      end
  end.

End walks.

(** ** More concrete inputs *)
Module fixtures.

Definition web_resource : k8s.Resource :=
  {| k8s.Namespace := "default"; k8s.Kind := "Deployment";
     k8s.Name := "web"; k8s.Results := [examples.V]; k8s.Error := "";
     k8s.Resource_Report := types.Report_zero |}.

(** Two misconfiguration scans of one pod. *)
Definition first_pod_scan : k8s.Resource :=
  {| k8s.Namespace := "default"; k8s.Kind := "Pod"; k8s.Name := "a";
     k8s.Results := [examples.M; examples.M]; k8s.Error := "timeout";
     k8s.Resource_Report := types.Report_zero |}.

Definition second_pod_scan : k8s.Resource :=
  {| k8s.Namespace := "default"; k8s.Kind := "Pod"; k8s.Name := "a";
     k8s.Results := [examples.M]; k8s.Error := "";
     k8s.Resource_Report := types.Report_zero |}.

(** A rank that goes down along every edge of the reverse graph of
    [examples.tree_packages]. *)
Definition tree_rank (pkgID : string) : nat :=
  if decide (pkgID = "openssl@1.1.1") then 2
  else if decide (pkgID = "lib@2.3") then 1
  else 0.

(** A Gradle lockfile, as the lines the scanner yields, and the identifier
    format of Gradle packages for concrete runs. *)
Definition gradle_lines : list string :=
  ["# This is a Gradle generated file for dependency locking.";
   "  org.springframework:spring-core:5.3.1=compileClasspath,runtimeClasspath";
   "junit:junit:4.13";
   "empty="].

Definition gradle_ID (name version : string) : string :=
  name +:+ ":" +:+ version.

Definition spring_core : lockfile.Library :=
  {| lockfile.ID := "org.springframework:spring-core:5.3.1";
     lockfile.Name := "org.springframework:spring-core";
     lockfile.Version := "5.3.1";
     lockfile.Locations :=
       [{| lockfile.StartLine := 2; lockfile.EndLine := 2 |}];
     lockfile.Relationship_ := lockfile.RelationshipUnknown |}.

(** Two misconfiguration scans whose identities differ only in letter case,
    with different results. *)
Definition M2 : types.Result :=
  {| types.Target := "Pod/a";
     types.Class := "config";
     types.Type_ := "kubernetes";
     types.Packages := [];
     types.Vulnerabilities := [];
     types.Misconfigurations :=
       [{| types.misconf_ID := "KSV012";
           types.Status := types.StatusFailure;
           types.misconf_Severity := "MEDIUM" |}];
     types.Secrets := [] |}.

Definition upper_case_scan : k8s.Resource :=
  {| k8s.Namespace := "Default"; k8s.Kind := "Pod"; k8s.Name := "a";
     k8s.Results := [examples.M]; k8s.Error := "timeout";
     k8s.Resource_Report := types.Report_zero |}.

Definition lower_case_scan : k8s.Resource :=
  {| k8s.Namespace := "default"; k8s.Kind := "pod"; k8s.Name := "A";
     k8s.Results := [M2]; k8s.Error := "";
     k8s.Resource_Report := types.Report_zero |}.

Definition collision_report : k8s.Report :=
  {| k8s.SchemaVersion := 2;
     k8s.ClusterName := "minikube";
     k8s.Vulnerabilities := [];
     k8s.Misconfigurations := [upper_case_scan; lower_case_scan] |}.

Definition overwrite_report : k8s.Report :=
  {| k8s.SchemaVersion := 2;
     k8s.ClusterName := "minikube";
     k8s.Vulnerabilities := [web_resource];
     k8s.Misconfigurations := [first_pod_scan; second_pod_scan] |}.

End fixtures.

(** * Facts about lists and maps used throughout *)

Lemma filter_none {A : Type} (P : A -> Prop) `{!forall x, Decision (P x)}
    (l : list A) :
  Forall (fun x => ~ P x) l -> filter P l = [].
Proof.
  induction 1 as [|x l Hx _ IH]; [done|].
  by rewrite filter_cons_False.
Qed.

Lemma foldl_snoc_list {A B : Type} (f : A -> B) (l : list A) (acc : list B) :
  foldl (fun acc x => acc ++ [f x]) acc l = acc ++ map f l.
Proof.
  revert acc. induction l as [|x l IH]; intros acc; simpl.
  - by rewrite app_nil_r.
  - by rewrite IH, <- app_assoc.
Qed.

(** * Properties of the aggregator ([pkg/k8s/report]) *)
Module k8s_props.

Import k8s vocabulary.

Section Aggregator.

Variable ToLower : string -> string.
Variable Results_Failed : list types.Result -> bool.

Local Abbreviation fullname := (k8s.fullname ToLower).
Local Abbreviation index_misconfiguration := (k8s.index_misconfiguration ToLower).
Local Abbreviation merge_vulnerability := (k8s.merge_vulnerability ToLower).
Local Abbreviation consolidate_index := (k8s.consolidate_index ToLower).
Local Abbreviation consolidate := (k8s.consolidate ToLower).
Local Abbreviation any_Failed := (k8s.any_Failed Results_Failed).
Local Abbreviation Failed := (k8s.Failed Results_Failed).

(** *** [Failed] *)

Lemma any_Failed_true (rs : list Resource) :
  any_Failed rs = true <->
  exists r, r ∈ rs /\ Results_Failed (Results r) = true.
Proof.
  induction rs as [|r rs IH]; simpl.
  - split; [discriminate|]. intros (r & Hr & _). by apply elem_of_nil in Hr.
  - destruct (Results_Failed (Results r)) eqn:Hf.
    + split; [|done]. intros _. exists r. split; [left|done].
    + rewrite IH. split.
      * intros (x & Hx & Hfx). exists x. split; [by right|done].
      * intros (x & Hx & Hfx). apply elem_of_cons in Hx as [->|Hx].
        -- congruence.
        -- by exists x.
Qed.

(** C4.  [Failed] answers true exactly when some resource of the
    vulnerability list or of the misconfiguration list has results whose own
    threshold check is true; the position of the failing resource in its
    list, and failing or passing resources before it, do not matter. *)
Theorem Failed_iff_some_resource_fails (r : Report) :
  Failed r = true <->
  exists res,
    (res ∈ Vulnerabilities r \/ res ∈ Misconfigurations r) /\
    Results_Failed (Results res) = true.
Proof.
  unfold k8s.Failed.
  destruct (any_Failed (Vulnerabilities r)) eqn:Hv.
  - apply any_Failed_true in Hv as (x & Hx & Hfx).
    split; [|done]. intros _. exists x. auto.
  - destruct (any_Failed (Misconfigurations r)) eqn:Hm.
    + apply any_Failed_true in Hm as (x & Hx & Hfx).
      split; [|done]. intros _. exists x. auto.
    + split; [discriminate|].
      intros (x & [Hx|Hx] & Hfx).
      * rewrite <- Hv. apply any_Failed_true. eauto.
      * rewrite <- Hm. apply any_Failed_true. eauto.
Qed.

(** *** [consolidate]: the index *)

Local Abbreviation keyed := (vocabulary.keyed ToLower).
Local Abbreviation sourced := (vocabulary.sourced ToLower).

Lemma fullname_merged_entry (e : Resource) (rs : list types.Result) :
  fullname (merged_entry e rs) = fullname e.
Proof. reflexivity. Qed.

Lemma merge_lookup_other (index : gmap string Resource) (v : Resource) (k : string) :
  fullname v ≠ k -> merge_vulnerability index v !! k = index !! k.
Proof.
  intros Hne. unfold k8s.merge_vulnerability.
  destruct (index !! fullname v); by rewrite lookup_insert_ne.
Qed.

Lemma merge_lookup_existing (index : gmap string Resource) (v e : Resource) :
  index !! fullname v = Some e ->
  merge_vulnerability index v !! fullname v
  = Some (merged_entry e (Results e ++ Results v)).
Proof.
  intros He. unfold k8s.merge_vulnerability. rewrite He.
  by rewrite lookup_insert_eq.
Qed.

Lemma merge_lookup_fresh (index : gmap string Resource) (v : Resource) :
  index !! fullname v = None ->
  merge_vulnerability index v !! fullname v = Some v.
Proof.
  intros He. unfold k8s.merge_vulnerability. rewrite He.
  by rewrite lookup_insert_eq.
Qed.

Lemma keyed_index_misconfiguration (index : gmap string Resource) (m : Resource) :
  keyed index -> keyed (index_misconfiguration index m).
Proof.
  intros Hk k e. unfold k8s.index_misconfiguration.
  rewrite lookup_insert. case_decide as Heq.
  - intros [= <-]. exact Heq.
  - apply Hk.
Qed.

Lemma keyed_merge_vulnerability (index : gmap string Resource) (v : Resource) :
  keyed index -> keyed (merge_vulnerability index v).
Proof.
  intros Hk k e. destruct (decide (fullname v = k)) as [<-|Hne].
  - destruct (index !! fullname v) as [r|] eqn:Hr.
    + rewrite (merge_lookup_existing _ _ _ Hr). intros [= <-].
      rewrite fullname_merged_entry. by apply Hk.
    + rewrite (merge_lookup_fresh _ _ Hr). by intros [= <-].
  - rewrite merge_lookup_other by done. apply Hk.
Qed.

Lemma keyed_foldl_index (ms : list Resource) (index : gmap string Resource) :
  keyed index -> keyed (foldl index_misconfiguration index ms).
Proof.
  revert index. induction ms as [|m ms IH]; intros index Hk; simpl; [done|].
  by apply IH, keyed_index_misconfiguration.
Qed.

Lemma keyed_foldl_merge (vs : list Resource) (index : gmap string Resource) :
  keyed index -> keyed (foldl merge_vulnerability index vs).
Proof.
  revert index. induction vs as [|v vs IH]; intros index Hk; simpl; [done|].
  by apply IH, keyed_merge_vulnerability.
Qed.

Lemma keyed_consolidate_index (r : Report) : keyed (consolidate_index r).
Proof.
  apply keyed_foldl_merge, keyed_foldl_index.
  intros k e. by rewrite lookup_empty.
Qed.

(** After the first loop, a key holds the last misconfiguration resource
    that has it. *)
Lemma index_misconfigurations_lookup
    (ms : list Resource) (index : gmap string Resource) (k : string) :
  foldl index_misconfiguration index ms !! k =
  match last (filter (λ m, fullname m = k) ms) with
  | Some m => Some m
  | None => index !! k
  end.
Proof.
  induction ms as [|m ms IH] using rev_ind; [done|].
  rewrite foldl_snoc, filter_app. unfold k8s.index_misconfiguration at 1.
  rewrite lookup_insert. case_decide as Heq.
  - rewrite filter_cons_True, filter_nil by done.
    by rewrite last_snoc.
  - rewrite filter_cons_False, filter_nil by done.
    by rewrite app_nil_r.
Qed.

(** The second loop leaves alone the keys no vulnerability resource has. *)
Lemma merge_fold_no_match
    (vs : list Resource) (index : gmap string Resource) (k : string) :
  filter (λ v, fullname v = k) vs = [] ->
  foldl merge_vulnerability index vs !! k = index !! k.
Proof.
  revert index. induction vs as [|v vs IH]; intros index Hf; simpl; [done|].
  destruct (decide (fullname v = k)) as [Heq|Hne].
  - by rewrite filter_cons_True in Hf.
  - rewrite filter_cons_False in Hf by done.
    rewrite IH by done. by apply merge_lookup_other.
Qed.

(** The second loop appends to an indexed entry the results of every
    vulnerability resource that has its key, in order. *)
Lemma merge_fold_existing
    (vs : list Resource) (index : gmap string Resource) (k : string)
    (e : Resource) :
  index !! k = Some e ->
  filter (λ v, fullname v = k) vs ≠ [] ->
  foldl merge_vulnerability index vs !! k =
  Some (merged_entry e
          (Results e ++ concat (Results <$> filter (λ v, fullname v = k) vs))).
Proof.
  revert index e. induction vs as [|v vs IH]; intros index e He Hf; [done|].
  simpl. destruct (decide (fullname v = k)) as [Heq|Hne].
  - rewrite filter_cons_True by done. subst k.
    pose proof (merge_lookup_existing _ _ _ He) as Hstep.
    destruct (decide (filter (λ x, fullname x = fullname v) vs = [])) as [Hnil|Hnn].
    + rewrite merge_fold_no_match by done. rewrite Hstep, Hnil.
      simpl. by rewrite app_nil_r.
    + rewrite (IH _ _ Hstep Hnn). simpl.
      unfold merged_entry; simpl. by rewrite <- app_assoc.
  - rewrite filter_cons_False in Hf |- * by done.
    apply IH; [|done]. by rewrite merge_lookup_other.
Qed.

(** The entries of the index that have a given key, read off the values. *)
Lemma findings_of_key
    (index : gmap string Resource) (k : string) (e : Resource) :
  keyed index -> index !! k = Some e ->
  filter (λ f, fullname f = k) (map_to_list index).*2 = [e].
Proof.
  intros Hk He.
  apply Permutation_singleton_r.
  rewrite <- (insert_delete_id index k e He) at 1.
  rewrite map_to_list_insert by apply lookup_delete_eq.
  simpl. rewrite filter_cons_True by (by apply Hk).
  constructor.
  apply Permutation_refl'. apply filter_none.
  apply Forall_fmap, Forall_forall. intros [k' e'] Hin. simpl.
  apply elem_of_map_to_list in Hin.
  apply lookup_delete_Some in Hin as [Hne Hl].
  rewrite (Hk _ _ Hl). congruence.
Qed.

(** *** [consolidate]: merging *)

(** C2.  Let [v] be a vulnerability resource of the report, met by the
    second loop after the vulnerability resources [vs1], and let [m] be the
    misconfiguration resource indexed under the key of [v] (the last one that
    has this key).  Then the index holds an entry [existing] under that key
    when [v] is met: it has the namespace, kind, name and error of [m], and
    its results are those of [m] followed by the results of the resources of
    [vs1] that have the key.  The loop body replaces it by the entry with the
    namespace, kind, name and error of [m] and the results of [existing]
    followed by the results of [v]; the error of [v] is not read.  In the
    findings exactly one entry has the key: that entry, followed by the
    results of the later vulnerability resources ([vs2]) that have the
    key. *)
Theorem consolidate_merges_into_existing
    (r : Report) (vs1 : list Resource) (v : Resource) (vs2 : list Resource)
    (m : Resource) :
  Vulnerabilities r = vs1 ++ v :: vs2 ->
  last (filter (λ x, fullname x = fullname v) (Misconfigurations r)) = Some m ->
  let same_key := λ x, fullname x = fullname v in
  let index :=
    foldl merge_vulnerability
      (foldl index_misconfiguration ∅ (Misconfigurations r)) vs1 in
  exists existing,
    index !! fullname v = Some existing /\
    Namespace existing = Namespace m /\
    Kind existing = Kind m /\
    Name existing = Name m /\
    Error existing = Error m /\
    Results existing = Results m ++ concat (Results <$> filter same_key vs1) /\
    merge_vulnerability index v !! fullname v
    = Some (merged_entry m (Results existing ++ Results v)) /\
    filter same_key (Findings (consolidate r))
    = [merged_entry m
         (Results existing ++ Results v
          ++ concat (Results <$> filter same_key vs2))].
Proof.
  intros Hvs Hm same_key index.
  set (index0 := foldl index_misconfiguration ∅ (Misconfigurations r)).
  assert (H0 : index0 !! fullname v = Some m).
  { unfold index0. rewrite index_misconfigurations_lookup. by rewrite Hm. }
  assert (Hex : exists existing,
             index !! fullname v = Some existing /\
             merged_entry existing (Results existing)
             = merged_entry m (Results existing) /\
             Results existing
             = Results m ++ concat (Results <$> filter same_key vs1)).
  { unfold index. fold index0.
    destruct (decide (filter same_key vs1 = [])) as [Hnil|Hnn].
    - exists m. rewrite merge_fold_no_match by done.
      rewrite Hnil. simpl. by rewrite app_nil_r.
    - eexists. split; [by apply merge_fold_existing|]. done. }
  destruct Hex as (existing & Hidx & Hid & Hres).
  injection Hid as Hns Hkind Hname Herr.
  exists existing. do 6 (split; [done|]).
  assert (Hstep : merge_vulnerability index v !! fullname v
                  = Some (merged_entry m (Results existing ++ Results v))).
  { rewrite (merge_lookup_existing _ _ _ Hidx).
    unfold merged_entry. by rewrite Hns, Hkind, Hname, Herr. }
  split; [done|].
  unfold k8s.consolidate. simpl.
  apply findings_of_key; [apply keyed_consolidate_index|].
  unfold k8s.consolidate_index. fold index0. rewrite Hvs.
  rewrite foldl_app.
  change (foldl merge_vulnerability index0 vs1) with index.
  change (foldl merge_vulnerability index (v :: vs2))
    with (foldl merge_vulnerability (merge_vulnerability index v) vs2).
  destruct (decide (filter same_key vs2 = [])) as [Hnil|Hnn].
  - rewrite merge_fold_no_match by done. rewrite Hstep, Hnil.
    simpl. by rewrite app_nil_r.
  - rewrite (merge_fold_existing _ _ _ _ Hstep Hnn). simpl.
    unfold merged_entry; simpl. by rewrite <- app_assoc.
Qed.

(** *** [consolidate]: one entry per identity *)

Lemma index_fold_is_Some
    (ms : list Resource) (index : gmap string Resource) (k : string) :
  is_Some (foldl index_misconfiguration index ms !! k) <->
  is_Some (index !! k) \/ exists m, m ∈ ms /\ fullname m = k.
Proof.
  revert index. induction ms as [|m ms IH]; intros index; simpl.
  - split; [auto|]. intros [?|(m & Hm & _)]; [done|]. by apply elem_of_nil in Hm.
  - rewrite IH. unfold k8s.index_misconfiguration at 1.
    rewrite lookup_insert_is_Some. split.
    + intros [[Heq|[_ Hs]]|(x & Hx & Hk)].
      * right. exists m. split; [left|done].
      * by left.
      * right. exists x. split; [by right|done].
    + intros [Hs|(x & Hx & Hk)].
      * left. destruct (decide (fullname m = k)); auto.
      * apply elem_of_cons in Hx as [->|Hx]; [by left; left|].
        right. by exists x.
Qed.

Lemma merge_is_Some (index : gmap string Resource) (v : Resource) (k : string) :
  is_Some (merge_vulnerability index v !! k) <->
  is_Some (index !! k) \/ fullname v = k.
Proof.
  destruct (decide (fullname v = k)) as [<-|Hne].
  - split; [auto|]. intros _.
    destruct (index !! fullname v) as [e|] eqn:He.
    + by rewrite (merge_lookup_existing _ _ _ He).
    + by rewrite (merge_lookup_fresh _ _ He).
  - rewrite merge_lookup_other by done. split; [auto|]. by intros [?|?].
Qed.

Lemma merge_fold_is_Some
    (vs : list Resource) (index : gmap string Resource) (k : string) :
  is_Some (foldl merge_vulnerability index vs !! k) <->
  is_Some (index !! k) \/ exists v, v ∈ vs /\ fullname v = k.
Proof.
  revert index. induction vs as [|v vs IH]; intros index; simpl.
  - split; [auto|]. intros [?|(m & Hm & _)]; [done|]. by apply elem_of_nil in Hm.
  - rewrite IH, merge_is_Some. split.
    + intros [[Hs|Heq]|(x & Hx & Hk)].
      * by left.
      * right. exists v. split; [left|done].
      * right. exists x. split; [by right|done].
    + intros [Hs|(x & Hx & Hk)].
      * by left; left.
      * apply elem_of_cons in Hx as [->|Hx]; [by left; right|].
        right. by exists x.
Qed.

Lemma sourced_index_misconfiguration
    (inputs : list Resource) (index : gmap string Resource) (m : Resource) :
  m ∈ inputs -> sourced inputs index ->
  sourced inputs (index_misconfiguration index m).
Proof.
  intros Hm Hs k e x. unfold k8s.index_misconfiguration.
  rewrite lookup_insert. case_decide as Heq.
  - intros [= <-] Hx. by exists m.
  - apply Hs.
Qed.

Lemma sourced_merge_vulnerability
    (inputs : list Resource) (index : gmap string Resource) (v : Resource) :
  v ∈ inputs -> sourced inputs index ->
  sourced inputs (merge_vulnerability index v).
Proof.
  intros Hv Hs k e x. destruct (decide (fullname v = k)) as [<-|Hne].
  - destruct (index !! fullname v) as [r|] eqn:Hr.
    + rewrite (merge_lookup_existing _ _ _ Hr). intros [= <-]. simpl.
      intros [Hx|Hx]%elem_of_app.
      * by apply (Hs _ _ _ Hr).
      * by exists v.
    + rewrite (merge_lookup_fresh _ _ Hr). intros [= <-] Hx. by exists v.
  - rewrite merge_lookup_other by done. apply Hs.
Qed.

Lemma sourced_consolidate_index (r : Report) :
  sourced (Misconfigurations r ++ Vulnerabilities r) (consolidate_index r).
Proof.
  unfold k8s.consolidate_index.
  set (inputs := Misconfigurations r ++ Vulnerabilities r).
  assert (Hms : forall x, x ∈ Misconfigurations r -> x ∈ inputs).
  { intros x Hx. apply elem_of_app. by left. }
  assert (Hvs : forall x, x ∈ Vulnerabilities r -> x ∈ inputs).
  { intros x Hx. apply elem_of_app. by right. }
  assert (H0 : sourced inputs ∅).
  { intros k e x. by rewrite lookup_empty. }
  revert H0 Hms Hvs. generalize (∅ : gmap string Resource) as index.
  generalize (Vulnerabilities r) as vs. generalize (Misconfigurations r) as ms.
  induction ms as [|m ms IH]; intros vs index H0 Hms Hvs; simpl.
  - revert index H0. induction vs as [|v vs IHv]; intros index H0; simpl; [done|].
    apply IHv.
    + intros x Hx. apply Hvs. by right.
    + apply sourced_merge_vulnerability; [apply Hvs; left|done].
  - apply IH; [|intros x Hx; apply Hms; by right|done].
    apply sourced_index_misconfiguration; [apply Hms; left|done].
Qed.

Lemma keys_of_findings (index : gmap string Resource) :
  keyed index -> fullname <$> (map_to_list index).*2 = (map_to_list index).*1.
Proof.
  intros Hk. rewrite <- list_fmap_compose.
  apply Forall_fmap_ext_1, Forall_forall. intros [k e] Hin. simpl.
  apply elem_of_map_to_list in Hin. by apply Hk.
Qed.

Lemma consolidate_index_is_Some (r : Report) (k : string) :
  is_Some (consolidate_index r !! k) <->
  exists i, i ∈ Misconfigurations r ++ Vulnerabilities r /\ fullname i = k.
Proof.
  unfold k8s.consolidate_index.
  rewrite merge_fold_is_Some, index_fold_is_Some, lookup_empty. split.
  - intros [[Hs|(m & Hm & Hk)]|(v & Hv & Hk)].
    + by destruct Hs.
    + exists m. split; [apply elem_of_app; by left|done].
    + exists v. split; [apply elem_of_app; by right|done].
  - intros (i & [Hi|Hi]%elem_of_app & Hk); [left; right|right]; by exists i.
Qed.

(** The keys of the findings: they are pairwise distinct and are exactly the
    canonical keys of the input resources; so the findings have as many
    entries as the inputs have distinct keys, every input resource has
    exactly one entry under its key, and every result of an entry comes from
    an input resource that has the entry's key.  (What an entry holds is
    settled in [k8s_identity].) *)
Lemma consolidate_one_entry_per_identity (r : Report) :
  let inputs := Misconfigurations r ++ Vulnerabilities r in
  let findings := Findings (consolidate r) in
  NoDup (fullname <$> findings) /\
  (forall k, k ∈ fullname <$> findings <->
             exists i, i ∈ inputs /\ fullname i = k) /\
  length findings = length (remove_dups (fullname <$> inputs)) /\
  (forall i, i ∈ inputs ->
     exists f, filter (λ f, fullname f = fullname i) findings = [f]) /\
  (forall f x, f ∈ findings -> x ∈ Results f ->
     exists i, i ∈ inputs /\ fullname i = fullname f /\ x ∈ Results i).
Proof.
  intros inputs findings.
  pose proof (keyed_consolidate_index r) as Hk.
  assert (Hkeys : fullname <$> findings = (map_to_list (consolidate_index r)).*1)
    by (by apply keys_of_findings).
  assert (Hnd : NoDup (fullname <$> findings)).
  { rewrite Hkeys. apply NoDup_fst_map_to_list. }
  assert (Hmem : forall k, k ∈ fullname <$> findings <->
                           exists i, i ∈ inputs /\ fullname i = k).
  { intros k. unfold inputs.
    rewrite Hkeys, <- consolidate_index_is_Some, list_elem_of_fmap. split.
    - intros ([k' e] & -> & Hin). apply elem_of_map_to_list in Hin. by exists e.
    - intros [e He]. exists (k, e). split; [done|]. by apply elem_of_map_to_list. }
  split; [done|]. split; [done|]. split; [|split].
  - rewrite <- (length_fmap fullname findings).
    apply Permutation_length, NoDup_Permutation; [done|apply NoDup_remove_dups|].
    intros k. rewrite elem_of_remove_dups, Hmem, list_elem_of_fmap.
    split; intros (i & Hi1 & Hi2); by exists i.
  - intros i Hi.
    destruct (proj2 (consolidate_index_is_Some r (fullname i))) as [e He].
    { by exists i. }
    exists e. by apply findings_of_key.
  - intros f x Hf Hx. unfold findings in Hf. simpl in Hf.
    apply list_elem_of_fmap in Hf as ([k e] & -> & Hin). simpl in Hx |- *.
    apply elem_of_map_to_list in Hin.
    rewrite (Hk _ _ Hin).
    by apply (sourced_consolidate_index r k e x).
Qed.

(** C9.  [consolidate] copies the schema version and the cluster name of the
    report; only the findings are computed. *)
Theorem consolidate_keeps_header (r : Report) :
  cons_SchemaVersion (consolidate r) = SchemaVersion r /\
  cons_ClusterName (consolidate r) = ClusterName r.
Proof. split; reflexivity. Qed.

(** *** [createResource] *)

(** C10.  The resource built for an artifact has the identity of the
    artifact; its error is the message of the scan error when there is one
    and the empty string otherwise; and whether or not there is an error its
    results are the results of the report, one for one and in order, where a
    result of type kubernetes has the target [kind/name] and is otherwise
    unchanged, and every other result is unchanged. *)
Theorem createResource_keeps_findings
    (artifact : Artifact) (report : types.Report) (err : option xerrors.error) :
  let res := createResource artifact report err in
  Error res = match err with Some e => xerrors.Error e | None => "" end /\
  (Namespace res, Kind res, Name res)
  = (art_Namespace artifact, art_Kind artifact, art_Name artifact) /\
  length (Results res) = length (types.Results report) /\
  (forall n result, types.Results report !! n = Some result ->
     exists result',
       Results res !! n = Some result' /\
       types.Target result' =
         (if decide (types.Type_ result = types.Kubernetes)
          then art_Kind artifact +:+ "/" +:+ art_Name artifact
          else types.Target result) /\
       (types.Class result', types.Type_ result', types.Packages result',
        types.Vulnerabilities result', types.Misconfigurations result',
        types.Secrets result')
       = (types.Class result, types.Type_ result, types.Packages result,
          types.Vulnerabilities result, types.Misconfigurations result,
          types.Secrets result)).
Proof.
  intros res.
  assert (Hres : Results res = map (fix_target artifact) (types.Results report)).
  { unfold res, createResource.
    destruct err; simpl; exact (foldl_snoc_list (fix_target artifact) _ []). }
  split; [by destruct err|]. split; [by destruct err|].
  rewrite Hres. split; [apply length_map|].
  intros n result Hn. exists (fix_target artifact result). split.
  - change (map (fix_target artifact) (types.Results report))
      with (fix_target artifact <$> types.Results report).
    by rewrite list_lookup_fmap, Hn.
  - unfold fix_target. by case_decide.
Qed.

End Aggregator.

(** The merge of the spec's example, run: [M] and [V] under one identity
    give the single entry with results [[M; V]], the identity and the (empty)
    error of the misconfiguration side. *)
Lemma consolidate_merges_example :
  Vulnerabilities examples.merge_report
  = [] ++ examples.vulnerability_resource :: [] /\
  last (filter (λ x, fullname ascii_ToLower x
                     = fullname ascii_ToLower examples.vulnerability_resource)
               (Misconfigurations examples.merge_report))
  = Some examples.misconfig_resource /\
  filter (λ x, fullname ascii_ToLower x = "default/pod/a")
         (Findings (consolidate ascii_ToLower examples.merge_report))
  = [merged_entry examples.misconfig_resource [examples.M; examples.V]].
Proof.
  assert (H1 : Vulnerabilities examples.merge_report
               = [] ++ examples.vulnerability_resource :: []) by reflexivity.
  assert (H2 : last (filter (λ x, fullname ascii_ToLower x
                     = fullname ascii_ToLower examples.vulnerability_resource)
                       (Misconfigurations examples.merge_report))
               = Some examples.misconfig_resource) by reflexivity.
  split; [exact H1|]. split; [exact H2|].
  destruct (consolidate_merges_into_existing ascii_ToLower
              examples.merge_report [] examples.vulnerability_resource []
              examples.misconfig_resource H1 H2)
    as (existing & _ & _ & _ & _ & _ & Hres & _ & Hfind).
  rewrite Hres in Hfind. exact Hfind.
Defined.

(** The end-to-end scenario of the spec, run: four resources with three
    identities give three findings, and the report fails. *)
Example consolidate_end_to_end :
  length (Findings (consolidate ascii_ToLower examples.end_to_end_report)) = 3
  /\ Failed examples.Results_Failed examples.end_to_end_report = true.
Proof. split; by vm_compute. Qed.

End k8s_props.

(** * Properties of Go's [int] arithmetic *)
Module goint_props.

Import goint.

Lemma wrap_idemp (z : Z) : wrap (wrap z) = wrap z.
Proof.
  unfold wrap. f_equal.
  replace ((z + 2 ^ 63) `mod` 2 ^ 64 - 2 ^ 63 + 2 ^ 63)%Z
    with ((z + 2 ^ 63) `mod` 2 ^ 64)%Z by lia.
  by rewrite Z.mod_mod.
Qed.

Lemma wrap_add_l (a b : Z) : wrap (wrap a + b) = wrap (a + b).
Proof.
  unfold wrap. f_equal.
  replace ((a + 2 ^ 63) `mod` 2 ^ 64 - 2 ^ 63 + b + 2 ^ 63)%Z
    with ((a + 2 ^ 63) `mod` 2 ^ 64 + b)%Z by lia.
  rewrite Zplus_mod_idemp_l. f_equal. lia.
Qed.

Lemma wrap_small (z : Z) : (- 2 ^ 63 <= z < 2 ^ 63)%Z -> wrap z = z.
Proof.
  intros Hz. unfold wrap. rewrite Z.mod_small; lia.
Qed.

End goint_props.

(** * Properties of the summarizer ([pkg/report/table.go]) *)
Module report_props.

Import report vocabulary.

(** *** Counting *)

Lemma counted_succ (n : nat) :
  Some (goint.add (default 0%Z (counted n)) 1) = counted (n + 1).
Proof.
  unfold counted, goint.add. destruct n as [|n]; simpl.
  - done.
  - f_equal. rewrite goint_props.wrap_add_l. f_equal. lia.
Qed.

Lemma incr_lookup (severityCount : gmap string Z) (k s : string) (n : nat) :
  severityCount !! s = counted n ->
  incr severityCount k !! s = counted (n + (if decide (k = s) then 1 else 0)).
Proof.
  intros Hn. unfold incr, count_of. rewrite lookup_insert.
  case_decide as Heq.
  - subst k. rewrite Hn. apply counted_succ.
  - by rewrite Nat.add_0_r.
Qed.

(** A loop that increments the key of the elements passing a test. *)
Lemma count_loop {A : Type} (P : A -> Prop) `{!forall x, Decision (P x)}
    (key : A -> string) (l : list A) (severityCount : gmap string Z)
    (s : string) (n : nat) :
  severityCount !! s = counted n ->
  foldl (fun severityCount x =>
           if decide (P x) then incr severityCount (key x) else severityCount)
        severityCount l !! s
  = counted (n + length (filter (λ x, P x /\ key x = s) l)).
Proof.
  revert severityCount n.
  induction l as [|x l IH]; intros severityCount n Hn; simpl.
  - by rewrite Nat.add_0_r.
  - destruct (decide (P x)) as [HP|HP].
    + rewrite (IH _ _ (incr_lookup _ (key x) _ _ Hn)).
      destruct (decide (key x = s)) as [Hk|Hk].
      * rewrite filter_cons_True by done. simpl. f_equal. lia.
      * rewrite filter_cons_False by tauto. f_equal. lia.
    + rewrite (IH _ _ Hn). by rewrite filter_cons_False by tauto.
Qed.

(** A loop that increments the key of every element. *)
Lemma count_loop_all {A : Type} (key : A -> string) (l : list A)
    (severityCount : gmap string Z) (s : string) (n : nat) :
  severityCount !! s = counted n ->
  foldl (fun severityCount x => incr severityCount (key x)) severityCount l !! s
  = counted (n + length (filter (λ x, key x = s) l)).
Proof.
  revert severityCount n.
  induction l as [|x l IH]; intros severityCount n Hn; simpl.
  - by rewrite Nat.add_0_r.
  - rewrite (IH _ _ (incr_lookup _ (key x) _ _ Hn)).
    destruct (decide (key x = s)) as [Hk|Hk].
    + rewrite filter_cons_True by done. simpl. f_equal. lia.
    + rewrite filter_cons_False by done. f_equal. lia.
Qed.

Lemma tally_vulnerabilities_lookup
    (vulns : list types.DetectedVulnerability) (s : string) :
  tally_vulnerabilities vulns !! s
  = counted (length (filter (λ v, types.vuln_Severity v = s) vulns)).
Proof.
  unfold tally_vulnerabilities.
  by rewrite (count_loop_all types.vuln_Severity vulns ∅ s 0).
Qed.

(** C6.  For every severity name, the count map of [countSeverities] holds
    the number of vulnerabilities of that severity, plus the number of
    misconfigurations of that severity whose status is failure, plus the
    number of secret findings of that severity (as a Go [int]); a severity
    with none of these has no key.  Misconfigurations that passed or are
    exceptions count nowhere. *)
Theorem countSeverities_tallies_three_sources
    (result : types.Result) (s : string) :
  countSeverities result !! s =
  counted
    (length (filter (λ v, types.vuln_Severity v = s)
                    (types.Vulnerabilities result))
     + length (filter (λ m, types.Status m = types.StatusFailure
                            /\ types.misconf_Severity m = s)
                      (types.Misconfigurations result))
     + length (filter (λ x, types.secret_Severity x = s)
                      (types.Secrets result))).
Proof.
  unfold countSeverities.
  set (P := λ m, types.Status m = types.StatusFailure).
  pose proof (count_loop P types.misconf_Severity
                (types.Misconfigurations result) ∅ s 0 eq_refl) as H1.
  pose proof (count_loop_all types.secret_Severity (types.Secrets result)
                _ s _ H1) as H2.
  etrans;
    [exact (count_loop_all types.vuln_Severity (types.Vulnerabilities result)
              _ s _ H2)|].
  f_equal. subst P. cbv beta. simpl. lia.
Qed.

(** *** [summary] *)

Lemma String_inj (a b : dbTypes.Severity) :
  dbTypes.String a = dbTypes.String b -> a = b.
Proof. destruct a, b; (reflexivity || discriminate). Qed.

Lemma String_in_SeverityNames (sev : dbTypes.Severity) :
  dbTypes.String sev ∈ dbTypes.SeverityNames.
Proof.
  apply list_elem_of_lookup. exists (dbTypes.to_nat sev). by destruct sev.
Qed.

Lemma NoDup_SeverityNames : NoDup dbTypes.SeverityNames.
Proof. apply (bool_decide_unpack _). by vm_compute. Qed.

(** The second loop of [summary], from any total that is a Go [int]. *)
Lemma summary_loop
    (severities : list string) (severityCount : gmap string Z)
    (names : list string) (total : Z) (summaries : list string) :
  goint.wrap total = total ->
  foldl (summary_step severities severityCount) (total, summaries) names
  = (goint.wrap
       (total + sum (count_of severityCount
                       <$> filter (λ name, name ∈ severities) names)),
     summaries ++ (summary_entry severityCount
                     <$> filter (λ name, name ∈ severities) names)).
Proof.
  revert total summaries.
  induction names as [|name names IH]; intros total summaries Ht.
  - simpl. rewrite app_nil_r. f_equal. rewrite <- Ht at 1. f_equal. lia.
  - simpl. unfold summary_step at 2.
    destruct (decide (name ∈ severities)) as [Hin|Hin].
    + rewrite filter_cons_True by done. simpl.
      rewrite IH by apply goint_props.wrap_idemp.
      unfold goint.add. f_equal.
      * rewrite goint_props.wrap_add_l. f_equal.
        exact (eq_sym (Z.add_assoc _ _ _)).
      * by rewrite <- app_assoc.
    + rewrite filter_cons_False by done. by apply IH.
Qed.

(** C5.  [summary] walks the global severity-name list in its fixed order
    and keeps the names of the allow-list: the entries are [NAME: count] for
    exactly the allow-listed severities, each once, in the order of that list
    whatever the order of the allow-list; the total is the sum, as a Go
    [int], of the counts of the allow-listed severities, and the exact sum
    when that fits an [int].  Counts of other severities are not read: they
    change neither total nor entries ([summary] only reads the map it is
    given). *)
Theorem summary_filters_in_fixed_order
    (tw : TableWriter) (severityCount : gmap string Z) :
  let allowed :=
    filter (λ name, name ∈ dbTypes.String <$> Severities tw)
           dbTypes.SeverityNames in
  summary tw severityCount
  = (goint.wrap (sum (count_of severityCount <$> allowed)),
     summary_entry severityCount <$> allowed) /\
  allowed `sublist_of` dbTypes.SeverityNames /\
  NoDup allowed /\
  (forall sev, dbTypes.String sev ∈ allowed <-> sev ∈ Severities tw) /\
  ((- 2 ^ 63 <= sum (count_of severityCount <$> allowed) < 2 ^ 63)%Z ->
   (summary tw severityCount).1 = sum (count_of severityCount <$> allowed)) /\
  (forall severityCount' : gmap string Z,
     (forall name, name ∈ allowed ->
        count_of severityCount' name = count_of severityCount name) ->
     summary tw severityCount' = summary tw severityCount).
Proof.
  intros allowed.
  assert (Hsum : forall m : gmap string Z,
            summary tw m
            = (goint.wrap (sum (count_of m <$> allowed)),
               summary_entry m <$> allowed)).
  { intros m. unfold summary.
    rewrite (foldl_snoc_list dbTypes.String (Severities tw) []).
    rewrite summary_loop by done. done. }
  split; [apply Hsum|].
  split; [apply sublist_filter|].
  split; [apply NoDup_filter, NoDup_SeverityNames|].
  split; [|split].
  - intros sev. unfold allowed. rewrite list_elem_of_filter, list_elem_of_fmap.
    split.
    + intros [(sev' & Heq & Hin) _]. by rewrite (String_inj _ _ Heq).
    + intros Hin. split; [by exists sev|apply String_in_SeverityNames].
  - intros Hfit. rewrite Hsum. simpl. by apply goint_props.wrap_small.
  - intros m' Hagree. rewrite !Hsum.
    assert (Hc : count_of m' <$> allowed = count_of severityCount <$> allowed).
    { apply Forall_fmap_ext_1, Forall_forall. apply Hagree. }
    assert (He : summary_entry m' <$> allowed
                 = summary_entry severityCount <$> allowed).
    { apply Forall_fmap_ext_1, Forall_forall. intros name Hn.
      unfold summary_entry. by rewrite Hagree. }
    by rewrite Hc, He.
Qed.

(** The severity filter of the spec, run: counts [LOW: 2, HIGH: 3,
    CRITICAL: 1] with the allow-list [CRITICAL, HIGH] give the total 4 and
    the entries [HIGH: 3] and [CRITICAL: 1], in this order; the map still
    holds [LOW: 2]. *)
Example summary_severity_filter :
  summary examples.filter_writer examples.filter_counts
  = (4%Z, ["HIGH: 3"; "CRITICAL: 1"]) /\
  examples.filter_counts !! "LOW" = Some 2%Z.
Proof. split; by vm_compute. Qed.

(** *** [lo.Uniq] *)

Lemma Uniq_go_spec (l : list string) (seen : gset string) :
  NoDup (Uniq_go seen l) /\
  forall x, x ∈ Uniq_go seen l <-> x ∈ l /\ x ∉ seen.
Proof.
  revert seen. induction l as [|y l IH]; intros seen; simpl.
  - split; [constructor|]. intros x. rewrite elem_of_nil. tauto.
  - destruct (decide (y ∈ seen)) as [Hy|Hy].
    + destruct (IH seen) as [Hnd Hmem]. split; [done|].
      intros x. rewrite Hmem, elem_of_cons. split; [tauto|].
      intros [[->|Hx] Hs]; [done|tauto].
    + destruct (IH ({[y]} ∪ seen)) as [Hnd Hmem]. split.
      * constructor; [|done]. rewrite Hmem. set_solver.
      * intros x. rewrite !elem_of_cons, Hmem.
        destruct (decide (x = y)) as [->|Hne]; [tauto|]. set_solver.
Qed.

Lemma NoDup_Uniq (l : list string) : NoDup (Uniq l).
Proof. apply Uniq_go_spec. Qed.

Lemma elem_of_Uniq (l : list string) (x : string) : x ∈ Uniq l <-> x ∈ l.
Proof.
  unfold Uniq. rewrite (proj2 (Uniq_go_spec l ∅)). set_solver.
Qed.

(** *** [renderDependencyTree] *)

(** After the first loop, a package identifier holds the tally of the
    vulnerabilities of that package met so far. *)
Lemma count_pkg_severity_lookup
    (vulns : list types.DetectedVulnerability)
    (pkgSeverityCount : gmap string (gmap string Z)) (id : string) :
  default ∅ (foldl count_pkg_severity pkgSeverityCount vulns !! id)
  = foldl (fun m v => incr m (types.vuln_Severity v))
          (default ∅ (pkgSeverityCount !! id))
          (filter (λ v, types.PkgID v = id) vulns).
Proof.
  revert pkgSeverityCount.
  induction vulns as [|v vulns IH]; intros pkgSeverityCount; [done|].
  simpl. rewrite IH. unfold count_pkg_severity at 1.
  destruct (decide (types.PkgID v = id)) as [Heq|Hne].
  - rewrite filter_cons_True by done. subst id.
    by rewrite lookup_insert_eq.
  - rewrite filter_cons_False by done. by rewrite lookup_insert_ne.
Qed.

Lemma pkg_tally
    (vulns : list types.DetectedVulnerability) (id : string) :
  default ∅ (foldl count_pkg_severity ∅ vulns !! id)
  = tally_vulnerabilities (filter (λ v, types.PkgID v = id) vulns).
Proof. by rewrite count_pkg_severity_lookup, lookup_empty. Qed.

Section Rendering.

Variable HiRedString : string -> string.

Local Abbreviation topLvlID := (report.topLvlID HiRedString).
Local Abbreviation render_branches := (report.render_branches HiRedString).
Local Abbreviation renderDependencyTree :=
  (report.renderDependencyTree HiRedString).

(** The second loop adds one branch for each package identifier not seen
    before, in the order of first occurrence. *)
Lemma render_branches_values
    (fuel : nat) (tw : TableWriter) (parents : gmap string (list string))
    (pkgSeverityCount : gmap string (gmap string Z))
    (vulns : list types.DetectedVulnerability) (seen : gset string)
    (bs : list treeprint.Tree) :
  render_branches fuel tw parents pkgSeverityCount seen vulns = Some bs ->
  treeprint.value <$> bs
  = topLvlID tw pkgSeverityCount <$> Uniq_go seen (types.PkgID <$> vulns).
Proof.
  revert seen bs. induction vulns as [|v vulns IH]; intros seen bs; simpl.
  - by intros [= <-].
  - destruct (decide (types.PkgID v ∈ seen)) as [Hs|Hs]; [apply IH|].
    destruct (addParents fuel (types.PkgID v) parents) as [above|]; [|done].
    destruct (render_branches fuel tw parents pkgSeverityCount
                ({[types.PkgID v]} ∪ seen) vulns) as [bs'|] eqn:Hrest; [|done].
    simpl. intros [= <-]. simpl. f_equal. by apply IH.
Qed.

(** C7.  When [renderDependencyTree] prints a tree, the branches of its root
    are, in order, one per distinct package identifier among the
    vulnerabilities of the result (first occurrences), however many
    vulnerabilities name the package; and the label of the branch of a
    package is its identifier followed by the summary of the tally of all
    the vulnerabilities of that package: for each severity, the number of
    vulnerabilities of the result with this package identifier and this
    severity. *)
Theorem renderDependencyTree_one_branch_per_package
    (fuel : nat) (tw : TableWriter) (result : types.Result)
    (root : treeprint.Tree) :
  renderDependencyTree fuel tw result = Some (Some root) ->
  let vulns := types.Vulnerabilities result in
  let ids := Uniq (types.PkgID <$> vulns) in
  let of_pkg := λ id, filter (λ v, types.PkgID v = id) vulns in
  let label := λ id,
    let text :=
      id +:+ ", (" +:+
      String.concat ", " (summary tw (tally_vulnerabilities (of_pkg id))).2
      +:+ ")" in
    if isOutputToTerminal tw then HiRedString text else text in
  NoDup ids /\
  (forall id, id ∈ ids <-> exists v, v ∈ vulns /\ types.PkgID v = id) /\
  length (treeprint.branches root) = length ids /\
  treeprint.value <$> treeprint.branches root = label <$> ids /\
  (forall id s,
     tally_vulnerabilities (of_pkg id) !! s
     = counted (length (filter (λ v, types.PkgID v = id
                                     /\ types.vuln_Severity v = s) vulns))).
Proof.
  intros Hrender vulns ids of_pkg label.
  unfold report.renderDependencyTree in Hrender.
  destruct (decide (size (reverseDeps (types.Packages result)) = 0));
    [done|].
  destruct (render_branches fuel tw _ _ ∅ (types.Vulnerabilities result))
    as [bs|] eqn:Hbs; [|done].
  injection Hrender as <-. simpl.
  apply render_branches_values in Hbs.
  assert (Hvalues : treeprint.value <$> bs = label <$> ids).
  { rewrite Hbs. apply Forall_fmap_ext_1, Forall_forall. intros id _.
    unfold report.topLvlID, label. by rewrite pkg_tally. }
  split; [apply NoDup_Uniq|]. split; [|split; [|split; [done|]]].
  - intros id. unfold ids. rewrite elem_of_Uniq, list_elem_of_fmap.
    split; intros (v & H1 & H2); by exists v.
  - by rewrite <- (length_fmap treeprint.value bs), Hvalues, length_fmap.
  - intros id s. rewrite tally_vulnerabilities_lookup. f_equal.
    unfold of_pkg. rewrite list_filter_filter. f_equal.
    apply list_filter_iff. tauto.
Qed.

End Rendering.

(** The tree of [examples.tree_result], run: openssl is named by three
    vulnerabilities and has one branch, whose label counts all three. *)
Lemma renderDependencyTree_example :
  report.renderDependencyTree (fun s => s) 4
    examples.filter_writer examples.tree_result
  = Some (Some examples.tree_root) /\
  treeprint.value <$> treeprint.branches examples.tree_root
  = ["openssl@1.1.1, (HIGH: 2, CRITICAL: 1)";
     "lib@2.3, (HIGH: 1, CRITICAL: 0)"].
Proof.
  assert (H : report.renderDependencyTree (fun s => s) 4
                examples.filter_writer examples.tree_result
              = Some (Some examples.tree_root)) by (vm_compute; reflexivity).
  split; [exact H|].
  destruct (renderDependencyTree_one_branch_per_package
              (fun s => s) 4 examples.filter_writer examples.tree_result
              examples.tree_root H) as (_ & _ & _ & Hvalues & _).
  rewrite Hvalues. vm_compute. reflexivity.
Defined.

(** *** [addParents] *)

(** On a graph whose edges go down a rank (so: without cycles) the walk
    returns, within a stack as deep as the rank of its start. *)
Lemma addParents_returns_on_ranked_graph
    (parentMap : gmap string (list string)) (rank : string -> nat) :
  (forall child parents parent,
     parentMap !! child = Some parents -> parent ∈ parents ->
     rank parent < rank child) ->
  forall fuel pkgID,
    rank pkgID < fuel -> is_Some (addParents fuel pkgID parentMap).
Proof.
  intros Hrank. induction fuel as [|fuel IH]; intros pkgID Hlt; [lia|].
  simpl. destruct (parentMap !! pkgID) as [parents|] eqn:Hp; [|done].
  apply mapM_is_Some, Forall_forall. intros parent Hin. simpl.
  apply fmap_is_Some, IH.
  specialize (Hrank _ _ _ Hp Hin). lia.
Qed.

(** More stack never changes what the walk returns. *)
Lemma addParents_fuel_mono
    (parentMap : gmap string (list string)) (n m : nat) (pkgID : string)
    (above : list treeprint.Tree) :
  addParents n pkgID parentMap = Some above -> n <= m ->
  addParents m pkgID parentMap = Some above.
Proof.
  revert m pkgID above.
  induction n as [|n IH]; intros m pkgID above Hn Hle; [done|].
  destruct m as [|m]; [lia|]. simpl in Hn |- *.
  destruct (parentMap !! pkgID) as [parents|]; [|done].
  apply mapM_Some in Hn. apply mapM_Some.
  eapply Forall2_impl; [exact Hn|]. simpl. intros parent t Ht.
  destruct (addParents n parent parentMap) as [ts|] eqn:Hts; [|done].
  rewrite (IH m parent ts Hts) by lia. exact Ht.
Qed.

Lemma render_branches_returns
    (HiRedString : string -> string)
    (fuel : nat) (tw : TableWriter) (parents : gmap string (list string))
    (pkgSeverityCount : gmap string (gmap string Z))
    (vulns : list types.DetectedVulnerability) (seen : gset string) :
  (forall v, v ∈ vulns -> is_Some (addParents fuel (types.PkgID v) parents)) ->
  is_Some (report.render_branches HiRedString fuel tw parents
             pkgSeverityCount seen vulns).
Proof.
  revert seen. induction vulns as [|v vulns IH]; intros seen Hall; simpl.
  - done.
  - assert (Hrest : forall seen', is_Some
              (report.render_branches HiRedString fuel tw parents
                 pkgSeverityCount seen' vulns)).
    { intros seen'. apply IH. intros x Hx. apply Hall. by right. }
    destruct (decide (types.PkgID v ∈ seen)); [apply Hrest|].
    destruct (Hall v) as [above ->]; [left|].
    apply fmap_is_Some, Hrest.
Qed.

(** On a result whose reverse graph has no cycle, the rendering returns. *)
Lemma renderDependencyTree_returns_on_ranked_graph
    (HiRedString : string -> string)
    (fuel : nat) (tw : TableWriter) (result : types.Result)
    (rank : string -> nat) :
  (forall child parents parent,
     reverseDeps (types.Packages result) !! child = Some parents ->
     parent ∈ parents -> rank parent < rank child) ->
  (forall v, v ∈ types.Vulnerabilities result -> rank (types.PkgID v) < fuel) ->
  is_Some (report.renderDependencyTree HiRedString fuel tw result).
Proof.
  intros Hrank Hfuel. unfold report.renderDependencyTree.
  case_decide; [done|].
  destruct (render_branches_returns HiRedString fuel tw
              (reverseDeps (types.Packages result))
              (foldl count_pkg_severity ∅ (types.Vulnerabilities result))
              (types.Vulnerabilities result) ∅) as [bs ->]; [|done].
  intros v Hv. eapply addParents_returns_on_ranked_graph; eauto.
Qed.

(** The parents of the cycle A, B, C. *)
Lemma cyclic_parents :
  reverseDeps examples.cyclic_packages !! "A" = Some ["C"] /\
  reverseDeps examples.cyclic_packages !! "B" = Some ["A"] /\
  reverseDeps examples.cyclic_packages !! "C" = Some ["B"] /\
  size (reverseDeps examples.cyclic_packages) = 3.
Proof. repeat split; by vm_compute. Qed.

(** C1, on the code.  On the reverse graph of the cycle A, B, C the walk
    from A returns within no stack depth: each call reaches the next package
    of the cycle and calls itself again, so neither [addParents] nor the
    rendering that calls it terminates. *)
Theorem addParents_never_returns_on_cycle (fuel : nat) :
  addParents fuel "A" (reverseDeps examples.cyclic_packages) = None /\
  forall (HiRedString : string -> string) (tw : TableWriter),
    report.renderDependencyTree HiRedString fuel tw examples.cyclic_result
    = None.
Proof.
  destruct cyclic_parents as (HA & HB & HC & Hsize).
  assert (Hall : forall n,
            addParents n "A" (reverseDeps examples.cyclic_packages) = None /\
            addParents n "B" (reverseDeps examples.cyclic_packages) = None /\
            addParents n "C" (reverseDeps examples.cyclic_packages) = None).
  { generalize dependent (reverseDeps examples.cyclic_packages).
    intros parentMap HA HB HC _.
    induction n as [|n (IHA & IHB & IHC)]; [done|].
    simpl. rewrite HA, HB, HC. simpl. by rewrite IHA, IHB, IHC. }
  split; [apply Hall|].
  intros HiRedString tw. unfold report.renderDependencyTree.
  change (types.Packages examples.cyclic_result)
    with examples.cyclic_packages.
  rewrite Hsize. simpl.
  by rewrite (proj1 (Hall fuel)).
Qed.

End report_props.

(** * Properties of the dispatcher ([pkg/rpc/client]) *)
Module client_props.

Import client.

Section Dispatcher.

Context {rpcResult rpcOS : Type}.
Variable ConvertFromRPCResults : list rpcResult -> list types.Result.
Variable ConvertFromRPCOS : option rpcOS -> option types.OS.
Variable transient : xerrors.error -> bool.
Variable maxRetries : nat.

Local Abbreviation Scanner := (@client.Scanner rpcResult rpcOS).
Local Abbreviation Scan :=
  (client.Scan ConvertFromRPCResults ConvertFromRPCOS transient maxRetries).

(** What the retried closure does: it makes the same call between once and
    [budget + 1] times, and ends with the reply to the last of them. *)
Lemma Retry_attempt
    (s : Scanner) (target artifactKey : string) (blobKeys : list string)
    (options : types.ScanOptions) (budget : nat)
    (sent : list Call) (res0 : option (rpc.ScanResponse rpcResult rpcOS)) :
  let call := (customHeaders s, request target artifactKey blobKeys options) in
  exists n,
    1 <= n <= budget + 1 /\
    Retry transient budget (attempt s target artifactKey blobKeys options)
      (sent, res0)
    = match client s (sent ++ replicate (n - 1) call) call with
      | inl res => ((sent ++ replicate n call, Some res), None)
      | inr err => ((sent ++ replicate n call, None), Some err)
      end.
Proof.
  intros call. revert sent res0.
  induction budget as [|budget IH]; intros sent res0.
  - exists 1. split; [lia|]. simpl. unfold attempt. simpl. fold call.
    rewrite app_nil_r. by destruct (client s sent call).
  - simpl. unfold attempt at 1. simpl. fold call.
    destruct (client s sent call) as [res|err] eqn:Hreply.
    + exists 1. split; [lia|]. simpl. by rewrite app_nil_r, Hreply.
    + destruct (transient err).
      * destruct (IH (sent ++ [call]) None) as (n & Hn & Heq).
        exists (S n). split; [lia|]. rewrite Heq.
        replace (S n - 1) with (S (n - 1)) by lia.
        change (replicate (S (n - 1)) call) with ([call] ++ replicate (n - 1) call).
        change (replicate (S n) call) with ([call] ++ replicate n call).
        by rewrite !app_assoc.
      * exists 1. split; [lia|]. simpl. by rewrite app_nil_r, Hreply.
Qed.

(** C8.  Every call that [Scan] dispatches carries the headers of the
    scanner and the request with [target] as target, [artifactKey] as
    artifact id, [blobKeys] (same order) as blob ids and the three scan
    options as options; there are between one and [maxRetries + 1] such
    calls and no other.  When the last of them fails with [err], [Scan]
    returns nil results, nil OS and the error that wraps [err] under the
    context "failed to detect vulnerabilities via RPC"; when it succeeds,
    [Scan] returns the converted results and OS and no error. *)
Theorem Scan_dispatches_request_and_wraps_failure
    (s : Scanner) (target artifactKey : string) (blobKeys : list string)
    (options : types.ScanOptions) (sent : list Call) :
  let call :=
    (customHeaders s,
     {| rpc.Target := target;
        rpc.ArtifactId := artifactKey;
        rpc.BlobIds := blobKeys;
        rpc.Options :=
          Some {| rpc.VulnType := types.VulnType options;
                  rpc.SecurityChecks := types.SecurityChecks options;
                  rpc.ListAllPackages := types.ListAllPackages options |} |}) in
  let out := Scan s target artifactKey blobKeys options sent in
  exists n,
    1 <= n <= maxRetries + 1 /\
    out.1 = sent ++ replicate n call /\
    match client s (sent ++ replicate (n - 1) call) call with
    | inr err =>
        let wrapped :=
          xerrors.Errorf_w "failed to detect vulnerabilities via RPC" err in
        out.2 = Returned None None (Some wrapped) /\
        xerrors.Unwrap wrapped = Some err /\
        xerrors.Error wrapped
        = "failed to detect vulnerabilities via RPC: " +:+ xerrors.Error err
    | inl res =>
        out.2 = Returned (Some (ConvertFromRPCResults (rpc.Results res)))
                  (ConvertFromRPCOS (rpc.Os res)) None
    end.
Proof.
  intros call out.
  destruct (Retry_attempt s target artifactKey blobKeys options maxRetries
              sent None) as (n & Hn & Heq).
  exists n. split; [done|].
  unfold out, client.Scan. rewrite Heq. fold call.
  change (customHeaders s, request target artifactKey blobKeys options)
    with call.
  by destruct (client s (sent ++ replicate (n - 1) call) call).
Qed.

End Dispatcher.

(** Two transient failures and a success: three calls, all with the same
    request, and the findings are returned. *)
Example Scan_retries_then_succeeds :
  Scan (fun _ => []) (fun _ => None) (fun _ => true) 10
    (NewScanner ∅ examples.flaky_service)
    "alpine:3.10" "sha256:a1" ["sha256:b1"; "sha256:b2"]
    examples.scan_options []
  = (replicate 3
       (∅, request "alpine:3.10" "sha256:a1" ["sha256:b1"; "sha256:b2"]
             examples.scan_options),
     Returned (Some []) None None).
Proof. by vm_compute. Qed.

(** With a budget of one retry the same service is given up on, and the
    error is wrapped. *)
Example Scan_gives_up :
  (Scan (fun _ => []) (fun _ => None) (fun _ => true) 1
     (NewScanner ∅ examples.flaky_service)
     "alpine:3.10" "sha256:a1" ["sha256:b1"; "sha256:b2"]
     examples.scan_options []).2
  = Returned None None
      (Some (xerrors.Errorf_w "failed to detect vulnerabilities via RPC"
               (xerrors.New "unavailable"))).
Proof. by vm_compute. Qed.

End client_props.

(** * More on the aggregator: what [consolidate] keeps and what it drops *)
Module k8s_more.

Import k8s vocabulary.

Section Aggregator.

Variable ToLower : string -> string.

Local Abbreviation fullname := (k8s.fullname ToLower).
Local Abbreviation index_misconfiguration := (k8s.index_misconfiguration ToLower).
Local Abbreviation merge_vulnerability := (k8s.merge_vulnerability ToLower).
Local Abbreviation consolidate_index := (k8s.consolidate_index ToLower).
Local Abbreviation consolidate := (k8s.consolidate ToLower).

(** The second loop on a key that the index does not hold yet: the first
    vulnerability resource with the key is stored as it is, and the later ones
    are merged into it. *)
Lemma merge_fold_fresh
    (vs : list Resource) (index : gmap string Resource) (k : string)
    (v1 : Resource) (rest : list Resource) :
  index !! k = None ->
  filter (λ v, fullname v = k) vs = v1 :: rest ->
  foldl merge_vulnerability index vs !! k =
  Some (match rest with
        | [] => v1
        | _ => merged_entry v1 (concat (Results <$> v1 :: rest))
        end).
Proof.
  revert index. induction vs as [|v vs IH]; intros index Hk Hf; [done|].
  simpl. destruct (decide (fullname v = k)) as [Heq|Hne].
  - rewrite filter_cons_True in Hf by done. injection Hf as -> Hrest.
    subst k. pose proof (k8s_props.merge_lookup_fresh ToLower _ _ Hk) as Hstep.
    destruct rest as [|v2 rest].
    + by rewrite k8s_props.merge_fold_no_match.
    + rewrite (k8s_props.merge_fold_existing ToLower _ _ _ _ Hstep)
        by (by rewrite Hrest).
      by rewrite Hrest.
  - rewrite filter_cons_False in Hf by done.
    apply IH; [|done]. by rewrite k8s_props.merge_lookup_other.
Qed.

(** X1.  A key that no misconfiguration resource has: its only entry is the
    first vulnerability resource with the key, as it is when it is the only
    one, and otherwise with its identity and error and the results of all
    the vulnerability resources with the key, in order (the errors of the
    later ones are not reported). *)
Theorem consolidate_vulnerability_only_key
    (r : Report) (k : string) (v1 : Resource) (rest : list Resource) :
  filter (λ m, fullname m = k) (Misconfigurations r) = [] ->
  filter (λ v, fullname v = k) (Vulnerabilities r) = v1 :: rest ->
  filter (λ f, fullname f = k) (Findings (consolidate r))
  = [match rest with
     | [] => v1
     | _ => merged_entry v1 (concat (Results <$> v1 :: rest))
     end].
Proof.
  intros Hno Hvs. unfold k8s.consolidate. simpl.
  apply k8s_props.findings_of_key; [apply k8s_props.keyed_consolidate_index|].
  unfold k8s.consolidate_index. apply merge_fold_fresh; [|done].
  rewrite k8s_props.index_misconfigurations_lookup.
  by rewrite Hno.
Qed.

(** X2.  A key that no vulnerability resource has: its only entry is the
    last misconfiguration resource with the key, unchanged.  The
    misconfiguration resources before it that have the same key are
    overwritten: nothing of them reaches the findings. *)
Theorem consolidate_keeps_last_misconfiguration
    (r : Report) (ms1 : list Resource) (m : Resource) (ms2 : list Resource) :
  Misconfigurations r = ms1 ++ m :: ms2 ->
  filter (λ x, fullname x = fullname m) ms2 = [] ->
  filter (λ v, fullname v = fullname m) (Vulnerabilities r) = [] ->
  filter (λ f, fullname f = fullname m) (Findings (consolidate r)) = [m].
Proof.
  intros Hms Hlast Hno. unfold k8s.consolidate. simpl.
  apply k8s_props.findings_of_key; [apply k8s_props.keyed_consolidate_index|].
  unfold k8s.consolidate_index.
  rewrite k8s_props.merge_fold_no_match by done.
  rewrite k8s_props.index_misconfigurations_lookup, Hms.
  rewrite filter_app, filter_cons_True by done.
  rewrite Hlast. by rewrite last_snoc.
Qed.

Lemma concat_results_segment (v : Resource) (vs : list Resource) :
  v ∈ vs ->
  exists before after,
    concat (Results <$> vs) = before ++ Results v ++ after.
Proof.
  intros Hv. apply list_elem_of_split in Hv as (l1 & l2 & ->).
  exists (concat (Results <$> l1)), (concat (Results <$> l2)).
  by rewrite fmap_app, concat_app.
Qed.

(** X3.  No result of a vulnerability resource is lost: the findings hold
    exactly one entry under the key of the resource, and the results of the
    resource are a segment of the results of that entry. *)
Theorem consolidate_keeps_vulnerability_results
    (r : Report) (n : nat) (v : Resource) :
  Vulnerabilities r !! n = Some v ->
  exists f before after,
    filter (λ f, fullname f = fullname v) (Findings (consolidate r)) = [f] /\
    Results f = before ++ Results v ++ after.
Proof.
  intros Hv%list_elem_of_lookup_2.
  set (k := fullname v).
  set (vs := filter (λ x, fullname x = k) (Vulnerabilities r)).
  assert (Hin : v ∈ vs) by (by apply list_elem_of_filter).
  destruct (concat_results_segment v vs Hin) as (before & after & Hseg).
  assert (Hnn : vs ≠ []) by (intros Hnil; rewrite Hnil in Hin; by apply elem_of_nil in Hin).
  assert (Hlookup : exists f before after,
            consolidate_index r !! k = Some f /\
            Results f = before ++ Results v ++ after).
  { unfold k8s.consolidate_index.
    destruct (foldl index_misconfiguration ∅ (Misconfigurations r) !! k)
      as [m|] eqn:Hm.
    - rewrite (k8s_props.merge_fold_existing ToLower _ _ _ _ Hm Hnn).
      fold vs. eexists _, (Results m ++ before), after. split; [done|].
      simpl. by rewrite Hseg, <- app_assoc.
    - destruct vs as [|v1 rest] eqn:Hvs; [done|].
      rewrite (merge_fold_fresh _ _ _ v1 rest Hm Hvs).
      destruct rest as [|v2 rest].
      + apply list_elem_of_singleton in Hin as ->.
        exists v1, [], []. split; [done|]. by rewrite app_nil_r.
      + eexists _, before, after. split; [done|]. done. }
  destruct Hlookup as (f & b & a & Hf & Hres).
  exists f, b, a. split; [|done].
  unfold k8s.consolidate. simpl.
  by apply k8s_props.findings_of_key; [apply k8s_props.keyed_consolidate_index|].
Qed.

End Aggregator.

(** In [fixtures.overwrite_report] the deployment has a key of its own: its
    entry is the vulnerability resource itself. *)
Lemma consolidate_vulnerability_only_key_example :
  filter (λ m, fullname ascii_ToLower m = "default/deployment/web")
         (Misconfigurations fixtures.overwrite_report) = [] /\
  filter (λ v, fullname ascii_ToLower v = "default/deployment/web")
         (Vulnerabilities fixtures.overwrite_report)
  = [fixtures.web_resource] /\
  filter (λ f, fullname ascii_ToLower f = "default/deployment/web")
         (Findings (consolidate ascii_ToLower fixtures.overwrite_report))
  = [fixtures.web_resource].
Proof.
  assert (H1 : filter (λ m, fullname ascii_ToLower m = "default/deployment/web")
                 (Misconfigurations fixtures.overwrite_report) = [])
    by reflexivity.
  assert (H2 : filter (λ v, fullname ascii_ToLower v = "default/deployment/web")
                 (Vulnerabilities fixtures.overwrite_report)
               = [fixtures.web_resource]) by reflexivity.
  split; [exact H1|]. split; [exact H2|].
  exact (consolidate_vulnerability_only_key ascii_ToLower
           fixtures.overwrite_report _ _ _ H1 H2).
Defined.

(** The same report scans the pod twice on the misconfiguration side: only
    the second scan is reported. *)
Lemma consolidate_keeps_last_misconfiguration_example :
  Misconfigurations fixtures.overwrite_report
  = [fixtures.first_pod_scan] ++ fixtures.second_pod_scan :: [] /\
  filter (λ x, fullname ascii_ToLower x
               = fullname ascii_ToLower fixtures.second_pod_scan) [] = [] /\
  filter (λ v, fullname ascii_ToLower v
               = fullname ascii_ToLower fixtures.second_pod_scan)
         (Vulnerabilities fixtures.overwrite_report) = [] /\
  filter (λ f, fullname ascii_ToLower f = "default/pod/a")
         (Findings (consolidate ascii_ToLower fixtures.overwrite_report))
  = [fixtures.second_pod_scan].
Proof.
  assert (H1 : Misconfigurations fixtures.overwrite_report
               = [fixtures.first_pod_scan] ++ fixtures.second_pod_scan :: [])
    by reflexivity.
  assert (H2 : filter (λ x, fullname ascii_ToLower x
                  = fullname ascii_ToLower fixtures.second_pod_scan) [] = [])
    by reflexivity.
  assert (H3 : filter (λ v, fullname ascii_ToLower v
                  = fullname ascii_ToLower fixtures.second_pod_scan)
                 (Vulnerabilities fixtures.overwrite_report) = [])
    by reflexivity.
  split; [exact H1|]. split; [exact H2|]. split; [exact H3|].
  exact (consolidate_keeps_last_misconfiguration ascii_ToLower
           fixtures.overwrite_report _ _ _ H1 H2 H3).
Defined.

(** The vulnerability resource of [examples.merge_report] keeps its result
    [V], after the result of the misconfiguration side. *)
Lemma consolidate_keeps_vulnerability_results_example :
  Vulnerabilities examples.merge_report !! 0
  = Some examples.vulnerability_resource /\
  exists f before after,
    filter (λ f, fullname ascii_ToLower f = "default/pod/a")
           (Findings (consolidate ascii_ToLower examples.merge_report)) = [f] /\
    Results f = before ++ [examples.V] ++ after.
Proof.
  assert (H1 : Vulnerabilities examples.merge_report !! 0
               = Some examples.vulnerability_resource) by reflexivity.
  split; [exact H1|].
  exact (consolidate_keeps_vulnerability_results ascii_ToLower
           examples.merge_report 0 _ H1).
Defined.

End k8s_more.

(** * More on the dependency tree ([reverseDeps], [addParents]) *)
Module tree_props.

Import report vocabulary walks.

(** *** [lo.Uniq] on repeated mentions *)

Lemma Uniq_go_seen_block {A : Type} (seen : gset string) (x : string)
    (block : list A) (l : list string) :
  x ∈ seen ->
  Uniq_go seen (((fun _ => x) <$> block) ++ l) = Uniq_go seen l.
Proof.
  intros Hx. induction block as [|b block IH]; [done|].
  simpl. by destruct (decide (x ∈ seen)).
Qed.

Lemma Uniq_go_block {A : Type} (seen : gset string) (x : string)
    (block : list A) (l : list string) :
  block ≠ [] ->
  Uniq_go seen (((fun _ => x) <$> block) ++ l) = Uniq_go seen (x :: l).
Proof.
  destruct block as [|b block]; [done|]. intros _. simpl.
  destruct (decide (x ∈ seen)) as [Hx|Hx].
  - by apply Uniq_go_seen_block.
  - f_equal. apply Uniq_go_seen_block. set_solver.
Qed.

Lemma Uniq_go_mentions (q : string) (libs : list types.Package)
    (seen : gset string) :
  Uniq_go seen (mentions q libs)
  = Uniq_go seen
      (types.ID <$> filter (λ lib, q ∈ types.DependsOn lib) libs).
Proof.
  revert seen. induction libs as [|lib libs IH]; intros seen; [done|].
  unfold mentions. rewrite bind_cons. fold (mentions q libs).
  destruct (decide (q ∈ types.DependsOn lib)) as [Hin|Hin].
  - rewrite filter_cons_True by done.
    rewrite Uniq_go_block.
    + simpl. destruct (decide (types.ID lib ∈ seen)); by rewrite IH.
    + intros Hnil. apply (filter_nil_not_elem_of _ _ q) in Hnil; [done..|]. done.
  - rewrite filter_cons_False by done.
    rewrite (filter_none (λ d, d = q)).
    + simpl. apply IH.
    + apply Forall_forall. intros d Hd ->. done.
Qed.

Lemma mentions_nil (q : string) (libs : list types.Package) :
  mentions q libs = [] <->
  filter (λ lib, q ∈ types.DependsOn lib) libs = [].
Proof.
  induction libs as [|lib libs IH]; [done|].
  unfold mentions. rewrite bind_cons. fold (mentions q libs).
  destruct (decide (q ∈ types.DependsOn lib)) as [Hin|Hin].
  - rewrite filter_cons_True by done. split; [|done].
    intros [Hb _]%app_eq_nil. apply fmap_nil_inv in Hb.
    by apply (filter_nil_not_elem_of _ _ q) in Hb.
  - rewrite filter_cons_False by done.
    rewrite (filter_none (λ d, d = q)); [done|].
    apply Forall_forall. intros d Hd ->. done.
Qed.

(** *** The first loop of [reverseDeps] *)

Lemma add_parent_lookup
    (lib : types.Package) (reversed : gmap string (list string))
    (dependOn q : string) :
  parents_of (add_parent lib reversed dependOn) q
  = parents_of reversed q
    ++ (if decide (dependOn = q) then [types.ID lib] else []).
Proof.
  unfold parents_of, add_parent.
  destruct (decide (dependOn = q)) as [->|Hne].
  - destruct (reversed !! q) as [items|] eqn:Hq; by rewrite lookup_insert_eq.
  - rewrite app_nil_r.
    destruct (reversed !! dependOn); by rewrite lookup_insert_ne.
Qed.

Lemma add_parent_nonempty
    (lib : types.Package) (reversed : gmap string (list string))
    (dependOn : string) :
  map_Forall (fun _ items => items ≠ []) reversed ->
  map_Forall (fun _ items => items ≠ []) (add_parent lib reversed dependOn).
Proof.
  intros Hne q items. unfold add_parent.
  destruct (reversed !! dependOn) as [old|]; rewrite lookup_insert;
    case_decide; try apply Hne; intros [= <-]; [by destruct old|done].
Qed.

Lemma add_parents_lookup
    (lib : types.Package) (deps : list string)
    (reversed : gmap string (list string)) (q : string) :
  parents_of (foldl (add_parent lib) reversed deps) q
  = parents_of reversed q
    ++ ((fun _ => types.ID lib) <$> filter (λ d, d = q) deps).
Proof.
  revert reversed. induction deps as [|d deps IH]; intros reversed; simpl.
  - by rewrite app_nil_r.
  - rewrite IH, add_parent_lookup, <- app_assoc. f_equal.
    destruct (decide (d = q)).
    + by rewrite filter_cons_True.
    + by rewrite filter_cons_False.
Qed.

Lemma add_parents_nonempty
    (lib : types.Package) (deps : list string)
    (reversed : gmap string (list string)) :
  map_Forall (fun _ items => items ≠ []) reversed ->
  map_Forall (fun _ items => items ≠ []) (foldl (add_parent lib) reversed deps).
Proof.
  revert reversed. induction deps as [|d deps IH]; intros reversed Hne; [done|].
  simpl. by apply IH, add_parent_nonempty.
Qed.

Lemma reversed_lookup
    (libs : list types.Package) (reversed : gmap string (list string))
    (q : string) :
  parents_of
    (foldl (fun reversed lib =>
              foldl (add_parent lib) reversed (types.DependsOn lib))
           reversed libs) q
  = parents_of reversed q ++ mentions q libs.
Proof.
  revert reversed. induction libs as [|lib libs IH]; intros reversed; simpl.
  - by rewrite app_nil_r.
  - rewrite IH, add_parents_lookup, <- app_assoc. done.
Qed.

Lemma reversed_nonempty
    (libs : list types.Package) (reversed : gmap string (list string)) :
  map_Forall (fun _ items => items ≠ []) reversed ->
  map_Forall (fun _ items => items ≠ [])
    (foldl (fun reversed lib =>
              foldl (add_parent lib) reversed (types.DependsOn lib))
           reversed libs).
Proof.
  revert reversed. induction libs as [|lib libs IH]; intros reversed Hne; [done|].
  simpl. by apply IH, add_parents_nonempty.
Qed.

(** The parents [reverseDeps] records for [q], as a lemma for the results
    below. *)
Lemma reverseDeps_lookup (libs : list types.Package) (q : string) :
  reverseDeps libs !! q =
  match filter (λ lib, q ∈ types.DependsOn lib) libs with
  | [] => None
  | dependents => Some (Uniq (types.ID <$> dependents))
  end.
Proof.
  unfold reverseDeps. rewrite lookup_fmap.
  set (raw := foldl _ ∅ libs).
  assert (Hget : parents_of raw q = mentions q libs).
  { unfold raw. by rewrite reversed_lookup. }
  assert (Hne : map_Forall (fun _ items => items ≠ []) raw).
  { apply reversed_nonempty. intros k x. by rewrite lookup_empty. }
  unfold parents_of in Hget.
  destruct (raw !! q) as [items|] eqn:Hraw; simpl in Hget |- *.
  - pose proof (Hne _ _ Hraw) as Hitems. subst items.
    destruct (filter (λ lib, q ∈ types.DependsOn lib) libs) as [|d ds] eqn:Hf.
    + by apply mentions_nil in Hf.
    + f_equal. unfold Uniq. by rewrite Uniq_go_mentions, Hf.
  - symmetry in Hget. apply mentions_nil in Hget. by rewrite Hget.
Qed.

(** X4.  The parents [reverseDeps] records for a package [q] are the
    identifiers of the packages that depend on [q], each once, in the order
    in which they first occur in the package list; [q] is a key of the map
    exactly when some package depends on it. *)
Theorem reverseDeps_parents (libs : list types.Package) (q : string) :
  let dependents := filter (λ lib, q ∈ types.DependsOn lib) libs in
  parents_of (reverseDeps libs) q = Uniq (types.ID <$> dependents) /\
  NoDup (parents_of (reverseDeps libs) q) /\
  (forall p, p ∈ parents_of (reverseDeps libs) q <->
             exists lib, lib ∈ libs /\ types.ID lib = p
                         /\ q ∈ types.DependsOn lib) /\
  (reverseDeps libs !! q = None <-> dependents = []).
Proof.
  intros dependents.
  assert (Hp : parents_of (reverseDeps libs) q = Uniq (types.ID <$> dependents)).
  { unfold parents_of. rewrite reverseDeps_lookup. fold dependents.
    by destruct dependents. }
  split; [done|]. rewrite Hp. split; [apply report_props.NoDup_Uniq|]. split.
  - intros p. rewrite report_props.elem_of_Uniq, list_elem_of_fmap. split.
    + intros (lib & -> & [Hq Hlib]%list_elem_of_filter). by exists lib.
    + intros (lib & Hlib & <- & Hq). exists lib. split; [done|].
      by apply list_elem_of_filter.
  - rewrite reverseDeps_lookup. fold dependents. by destruct dependents.
Qed.

(** X5.  [renderDependencyTree] takes its early return, and prints nothing,
    exactly when no package of the result has a dependency: then the
    vulnerabilities of the result get no tree, however many there are. *)
Theorem renderDependencyTree_without_edges
    (HiRedString : string -> string) (fuel : nat) (tw : TableWriter)
    (result : types.Result) :
  report.renderDependencyTree HiRedString fuel tw result = Some None <->
  Forall (λ lib, types.DependsOn lib = []) (types.Packages result).
Proof.
  unfold report.renderDependencyTree.
  set (libs := types.Packages result).
  assert (Hempty : size (reverseDeps libs) = 0 <->
                   Forall (λ lib, types.DependsOn lib = []) libs).
  { rewrite map_size_empty_iff, map_empty, Forall_forall. split.
    - intros Hnone lib Hlib.
      destruct (types.DependsOn lib) as [|d ds] eqn:Hd; [done|].
      specialize (Hnone d). rewrite reverseDeps_lookup in Hnone.
      assert (Hin : lib ∈ filter (λ lib, d ∈ types.DependsOn lib) libs).
      { apply list_elem_of_filter. split; [|done]. rewrite Hd. left. }
      destruct (filter _ libs); [by apply elem_of_nil in Hin|done].
    - intros Hall q. rewrite reverseDeps_lookup.
      rewrite filter_none; [done|].
      apply Forall_forall. intros lib Hlib Hq.
      rewrite (Hall lib Hlib) in Hq. by apply elem_of_nil in Hq. }
  case_decide as Hsize.
  - split; [|done]. intros _. by apply Hempty.
  - split.
    + by destruct (report.render_branches _ _ _ _ _ _ _).
    + intros Hall. by apply Hempty in Hall.
Qed.

(** *** The shape of what [addParents] adds *)

Lemma paths_nonempty (t : treeprint.Tree) : paths t ≠ [].
Proof.
  destruct t as [v bs]. simpl.
  by destruct (concat (List.map paths bs)).
Qed.

Lemma concat_paths_nil (bs : list treeprint.Tree) :
  concat (List.map paths bs) = [] -> bs = [].
Proof.
  destruct bs as [|b bs]; [done|]. simpl.
  intros [Hb _]%app_eq_nil. by apply paths_nonempty in Hb.
Qed.

Lemma elem_of_concat_paths (bs : list treeprint.Tree) (path : list string) :
  path ∈ concat (List.map paths bs) ->
  exists b, b ∈ bs /\ path ∈ paths b.
Proof.
  induction bs as [|b bs IH]; simpl.
  - by intros ?%elem_of_nil.
  - intros [Hb|Hbs]%elem_of_app.
    + exists b. split; [left|done].
    + destruct (IH Hbs) as (b' & Hb' & Hp). exists b'. split; [by right|done].
Qed.

(** The branches added for a package are labelled with its parents, in
    order. *)
Lemma addParents_values
    (parentMap : gmap string (list string)) (fuel : nat) (pkgID : string)
    (above : list treeprint.Tree) :
  addParents fuel pkgID parentMap = Some above ->
  treeprint.value <$> above = parents_of parentMap pkgID.
Proof.
  destruct fuel as [|fuel]; [done|]. simpl. unfold parents_of.
  destruct (parentMap !! pkgID) as [parents|]; [|by intros [= <-]].
  intros Hm%mapM_Some. simpl.
  induction Hm as [|parent t parents above Ht _ IH]; [done|].
  rewrite fmap_cons. f_equal; [|exact IH].
  destruct (addParents fuel parent parentMap); [|done].
  by injection Ht as <-.
Qed.

(** Every path of what [addParents] adds follows the parent map, from the
    package up to a package without parents. *)
Lemma addParents_chain
    (parentMap : gmap string (list string)) (fuel : nat) :
  forall (pkgID : string) (above : list treeprint.Tree),
    addParents fuel pkgID parentMap = Some above ->
    forall t path, t ∈ above -> path ∈ paths t ->
                   chain parentMap (pkgID :: path).
Proof.
  induction fuel as [|fuel IH]; intros pkgID above Hret t path Ht Hpath; [done|].
  simpl in Hret.
  destruct (parentMap !! pkgID) as [parents|] eqn:Hp;
    [|injection Hret as <-; by apply elem_of_nil in Ht].
  apply mapM_Some in Hret.
  apply list_elem_of_lookup in Ht as [i Hi].
  destruct (Forall2_lookup_r _ _ _ _ _ Hret Hi) as (parent & Hparent & Hnode).
  destruct (addParents fuel parent parentMap) as [cs|] eqn:Hcs; [|done].
  injection Hnode as <-.
  assert (Hedge : parent ∈ parents_of parentMap pkgID).
  { unfold parents_of. rewrite Hp. simpl. by eapply list_elem_of_lookup_2. }
  simpl in Hpath.
  destruct (concat (List.map paths cs)) as [|p0 ps] eqn:Hconcat.
  - apply list_elem_of_singleton in Hpath as ->. simpl. split; [done|].
    apply concat_paths_nil in Hconcat. subst cs.
    by rewrite <- (addParents_values _ _ _ _ Hcs).
  - change (path ∈ cons parent <$> (p0 :: ps)) in Hpath.
    apply list_elem_of_fmap in Hpath as (path' & -> & Hpath').
    rewrite <- Hconcat in Hpath'.
    apply elem_of_concat_paths in Hpath' as (c & Hc & Hpc).
    pose proof (IH parent cs Hcs c path' Hc Hpc) as Hchain.
    split; [done|exact Hchain].
Qed.

Lemma chain_rank_below
    (parentMap : gmap string (list string)) (rank : string -> nat) :
  map_Forall (fun child parents =>
                Forall (fun parent => rank parent < rank child) parents)
             parentMap ->
  forall path child, chain parentMap (child :: path) ->
                     Forall (fun x => rank x < rank child) path.
Proof.
  intros Hrank. induction path as [|parent path IH]; intros child Hc; [done|].
  destruct Hc as [Hedge Hc]. unfold parents_of in Hedge.
  destruct (parentMap !! child) as [parents|] eqn:Hp;
    [|by apply elem_of_nil in Hedge].
  simpl in Hedge.
  pose proof (proj1 (Forall_forall _ _) (Hrank _ _ Hp) _ Hedge) as Hlt.
  constructor; [done|].
  simpl in Hlt.
  eapply Forall_impl; [apply (IH parent Hc)|]. simpl. intros x Hx. lia.
Qed.

Lemma chain_NoDup
    (parentMap : gmap string (list string)) (rank : string -> nat) :
  map_Forall (fun child parents =>
                Forall (fun parent => rank parent < rank child) parents)
             parentMap ->
  forall path, chain parentMap path -> NoDup path.
Proof.
  intros Hrank. induction path as [|child path IH]; intros Hc; [constructor|].
  constructor.
  - intros Hin.
    pose proof (chain_rank_below _ _ Hrank _ _ Hc) as Hbelow.
    pose proof (proj1 (Forall_forall _ _) Hbelow _ Hin) as Hlt.
    simpl in Hlt. lia.
  - apply IH. destruct path as [|parent path]; [done|]. by destruct Hc.
Qed.

(** X6.  On a parent map whose edges all go down a rank (a graph without
    cycles), the walk from a package returns once the stack is deeper than
    the rank of the package.  The branches it adds are labelled with the
    parents of the package, in order, and every path of labels below the
    package follows the parent map up to a package without parents and
    names no package twice. *)
Theorem addParents_paths_on_ranked_graph
    (parentMap : gmap string (list string)) (rank : string -> nat)
    (fuel : nat) (pkgID : string) :
  map_Forall (fun child parents =>
                Forall (fun parent => rank parent < rank child) parents)
             parentMap ->
  rank pkgID < fuel ->
  exists above,
    addParents fuel pkgID parentMap = Some above /\
    treeprint.value <$> above = parents_of parentMap pkgID /\
    forall t path, t ∈ above -> path ∈ paths t ->
                   chain parentMap (pkgID :: path) /\ NoDup (pkgID :: path).
Proof.
  intros Hrank Hfuel.
  destruct (report_props.addParents_returns_on_ranked_graph parentMap rank)
    with (fuel := fuel) (pkgID := pkgID) as [above Habove]; [|done|].
  { intros child parents parent Hp Hin.
    exact (proj1 (Forall_forall _ _) (Hrank _ _ Hp) _ Hin). }
  exists above. split; [done|]. split; [by eapply addParents_values|].
  intros t path Ht Hpath.
  pose proof (addParents_chain _ _ _ _ Habove t path Ht Hpath) as Hchain.
  split; [done|]. by eapply chain_NoDup.
Qed.

(** The walk from openssl in [examples.tree_packages], run against X6. *)
Lemma addParents_paths_example :
  map_Forall (fun child parents =>
                Forall (fun parent => fixtures.tree_rank parent
                                      < fixtures.tree_rank child) parents)
             (reverseDeps examples.tree_packages) /\
  fixtures.tree_rank "openssl@1.1.1" < 3 /\
  exists above,
    addParents 3 "openssl@1.1.1" (reverseDeps examples.tree_packages)
    = Some above /\
    treeprint.value <$> above
    = parents_of (reverseDeps examples.tree_packages) "openssl@1.1.1" /\
    forall t path, t ∈ above -> path ∈ paths t ->
      chain (reverseDeps examples.tree_packages) ("openssl@1.1.1" :: path)
      /\ NoDup ("openssl@1.1.1" :: path).
Proof.
  assert (H1 : map_Forall (fun child parents =>
                Forall (fun parent => fixtures.tree_rank parent
                                      < fixtures.tree_rank child) parents)
             (reverseDeps examples.tree_packages)).
  { apply (bool_decide_unpack _). vm_compute. reflexivity. }
  assert (H2 : fixtures.tree_rank "openssl@1.1.1" < 3) by (vm_compute; lia).
  split; [exact H1|]. split; [exact H2|].
  exact (addParents_paths_on_ranked_graph _ _ 3 "openssl@1.1.1" H1 H2).
Defined.

End tree_props.

(** * More on the summary line: [summary] after [countSeverities] *)
Module total_props.

Import report vocabulary walks.

Lemma wrap_add_r (a b : Z) : goint.wrap (a + goint.wrap b) = goint.wrap (a + b).
Proof.
  rewrite Z.add_comm, goint_props.wrap_add_l. f_equal. lia.
Qed.

Lemma wrap_sum_wrap (l : list Z) :
  goint.wrap (sum (goint.wrap <$> l)) = goint.wrap (sum l).
Proof.
  induction l as [|a l IH]; [done|].
  change (goint.wrap (goint.wrap a + sum (goint.wrap <$> l))
          = goint.wrap (a + sum l)).
  rewrite goint_props.wrap_add_l, <- wrap_add_r, IH. apply wrap_add_r.
Qed.

Lemma incr_loop_filtered {A : Type} (P : A -> Prop) `{!forall x, Decision (P x)}
    (key : A -> string) (l : list A) (severityCount : gmap string Z) :
  foldl (fun severityCount x =>
           if decide (P x) then incr severityCount (key x) else severityCount)
        severityCount l
  = foldl incr severityCount (key <$> filter P l).
Proof.
  revert severityCount. induction l as [|x l IH]; intros severityCount; [done|].
  simpl. destruct (decide (P x)).
  - rewrite filter_cons_True by done. apply IH.
  - rewrite filter_cons_False by done. apply IH.
Qed.

Lemma incr_loop_all {A : Type} (key : A -> string) (l : list A)
    (severityCount : gmap string Z) :
  foldl (fun severityCount x => incr severityCount (key x)) severityCount l
  = foldl incr severityCount (key <$> l).
Proof.
  revert severityCount. induction l as [|x l IH]; intros severityCount; [done|].
  simpl. apply IH.
Qed.

(** [countSeverities] increments once per counted finding. *)
Lemma countSeverities_as_loop (result : types.Result) :
  countSeverities result = foldl incr ∅ (counted_severities result).
Proof.
  unfold countSeverities, counted_severities. cbv zeta.
  rewrite !foldl_app.
  rewrite <- (incr_loop_filtered
                (λ m, types.Status m = types.StatusFailure)
                types.misconf_Severity).
  rewrite <- (incr_loop_all types.secret_Severity).
  by rewrite <- (incr_loop_all types.vuln_Severity).
Qed.

Lemma count_of_loop (severities : list string) (s : string) :
  count_of (foldl incr ∅ severities) s
  = goint.wrap (Z.of_nat (length (filter (λ x, x = s) severities))).
Proof.
  pose proof (report_props.count_loop_all (fun x : string => x) severities
                ∅ s 0 eq_refl) as Hl.
  unfold count_of.
  change (foldl incr ∅ severities !! s
          = counted (0 + length (filter (λ x, x = s) severities))) in Hl.
  rewrite Hl. simpl. unfold counted.
  by destruct (length (filter (λ x, x = s) severities)).
Qed.

(** Counting key by key over distinct keys is counting the elements that
    have one of the keys. *)
Lemma sum_counts_NoDup (names : list string) (l : list string) :
  NoDup names ->
  sum ((fun n => Z.of_nat (length (filter (λ x, x = n) l))) <$> names)
  = Z.of_nat (length (filter (λ x, x ∈ names) l)).
Proof.
  induction 1 as [|n names Hn _ IH].
  - simpl. rewrite filter_none; [done|].
    apply Forall_forall. intros x _ Hx. by apply elem_of_nil in Hx.
  - change (Z.of_nat (length (filter (λ x, x = n) l))
            + sum ((fun n => Z.of_nat (length (filter (λ x, x = n) l)))
                     <$> names)
            = Z.of_nat (length (filter (λ x, x ∈ n :: names) l)))%Z.
    rewrite IH, <- Nat2Z.inj_add. f_equal.
    clear IH. induction l as [|x l IHl]; [done|].
    destruct (decide (x = n)) as [->|Hne].
    + rewrite (filter_cons_True (λ x, x = n)) by done.
      rewrite (filter_cons_False (λ x, x ∈ names)) by done.
      rewrite (filter_cons_True (λ x, x ∈ n :: names)) by left.
      simpl. by rewrite IHl.
    + rewrite (filter_cons_False (λ x, x = n)) by done.
      destruct (decide (x ∈ names)) as [Hin|Hin].
      * rewrite (filter_cons_True (λ x, x ∈ names)) by done.
        rewrite (filter_cons_True (λ x, x ∈ n :: names)) by (by right).
        simpl. rewrite <- IHl. lia.
      * rewrite (filter_cons_False (λ x, x ∈ names)) by done.
        rewrite (filter_cons_False (λ x, x ∈ n :: names)); [done|].
        by intros [->|?]%elem_of_cons.
Qed.

(** X7.  The total that [write] prints is the number (as a Go [int]) of the
    counted findings of the result whose severity is on the allow-list of
    the writer: vulnerabilities, failed misconfigurations and secrets alike.
    A finding whose severity is not allow-listed, or is not one of the five
    severity names, is left out of the total. *)
Theorem summary_total_counts_allowed_findings
    (tw : TableWriter) (result : types.Result) :
  let shown :=
    filter (λ s, s ∈ dbTypes.String <$> Severities tw)
           (counted_severities result) in
  (summary tw (countSeverities result)).1
  = goint.wrap (Z.of_nat (length shown)) /\
  ((Z.of_nat (length shown) < 2 ^ 63)%Z ->
   (summary tw (countSeverities result)).1 = Z.of_nat (length shown)).
Proof.
  intros shown.
  assert (Htotal : (summary tw (countSeverities result)).1
                   = goint.wrap (Z.of_nat (length shown))).
  { unfold summary.
    rewrite (foldl_snoc_list dbTypes.String (Severities tw) []).
    rewrite report_props.summary_loop by done. simpl.
    set (names := filter (λ name, name ∈ map dbTypes.String (Severities tw))
                         dbTypes.SeverityNames).
    rewrite countSeverities_as_loop.
    assert (Hc : count_of (foldl incr ∅ (counted_severities result)) <$> names
                 = goint.wrap
                     <$> ((fun n => Z.of_nat
                             (length (filter (λ x, x = n)
                                             (counted_severities result))))
                            <$> names)).
    { rewrite <- list_fmap_compose. apply list_fmap_ext.
      intros i n _. apply count_of_loop. }
    rewrite Hc, Z.add_0_l, wrap_sum_wrap.
    rewrite sum_counts_NoDup
      by apply NoDup_filter, report_props.NoDup_SeverityNames.
    do 2 f_equal. unfold shown. f_equal. apply list_filter_iff.
    intros s. unfold names. rewrite list_elem_of_filter. split; [tauto|].
    intros Hs. split; [done|].
    apply list_elem_of_fmap in Hs as (sev & -> & _).
    apply report_props.String_in_SeverityNames. }
  split; [done|]. intros Hfit. rewrite Htotal.
  apply goint_props.wrap_small. lia.
Qed.

End total_props.

(** * Facts about the model of Go's [strings] *)
Module gostrings_props.

Import gostrings.

Lemma append_String (x : Ascii.ascii) (a b : string) :
  String x a +:+ b = String x (a +:+ b).
Proof. reflexivity. Qed.

Lemma append_nil_l (a : string) : "" +:+ a = a.
Proof. reflexivity. Qed.

Lemma append_assoc (a b c : string) : (a +:+ b) +:+ c = a +:+ (b +:+ c).
Proof.
  induction a as [|x a IH]; [done|]. rewrite !append_String. by rewrite IH.
Qed.

Lemma append_nil_r (a : string) : a +:+ "" = a.
Proof.
  induction a as [|x a IH]; [done|]. rewrite append_String. by rewrite IH.
Qed.

Lemma contains_append (c : Ascii.ascii) (a b : string) :
  contains c (a +:+ b) = contains c a || contains c b.
Proof.
  induction a as [|x a IH]; [done|]. rewrite append_String. simpl.
  by destruct (decide (x = c)).
Qed.

Lemma Split_nonempty (s : string) (sep : Ascii.ascii) : Split s sep ≠ [].
Proof.
  destruct s as [|c s]; [done|]. simpl.
  destruct (decide (c = sep)); [done|]. by destruct (Split s sep).
Qed.

Lemma Join_cons (x : string) (l : list string) (sep : string) :
  l ≠ [] -> Join (x :: l) sep = x +:+ sep +:+ Join l sep.
Proof. by destruct l. Qed.

(** Joining the pieces of a split with the separator gives the string
    back. *)
Lemma Join_Split (s : string) (sep : Ascii.ascii) :
  Join (Split s sep) (String sep "") = s.
Proof.
  induction s as [|c s IH]; [done|]. simpl.
  destruct (decide (c = sep)) as [->|Hne].
  - rewrite Join_cons by apply Split_nonempty.
    by rewrite append_nil_l, append_String, append_nil_l, IH.
  - pose proof (Split_nonempty s sep) as Hs.
    destruct (Split s sep) as [|piece pieces]; [done|].
    destruct pieces as [|p ps].
    + simpl in IH |- *. by rewrite IH.
    + rewrite Join_cons in IH |- * by done.
      by rewrite append_String, IH.
Qed.

Lemma Split_free (s : string) (sep : Ascii.ascii) :
  contains sep s = false -> Split s sep = [s].
Proof.
  induction s as [|c s IH]; [done|]. simpl.
  destruct (decide (c = sep)); [done|]. intros Hs. by rewrite IH.
Qed.

Lemma Split_append_sep (s1 s2 : string) (sep : Ascii.ascii) :
  contains sep s1 = false ->
  Split (s1 +:+ String sep s2) sep = s1 :: Split s2 sep.
Proof.
  induction s1 as [|c s1 IH].
  - intros _. rewrite append_nil_l. simpl. by destruct (decide (sep = sep)).
  - rewrite append_String. simpl.
    destruct (decide (c = sep)); [done|]. intros Hs. by rewrite IH.
Qed.

(** No piece of a split holds the separator. *)
Lemma Split_pieces_free (s : string) (sep : Ascii.ascii) :
  Forall (fun piece => contains sep piece = false) (Split s sep).
Proof.
  induction s as [|c s IH]; simpl.
  - by constructor.
  - destruct (decide (c = sep)) as [->|Hne]; [by constructor|].
    destruct (Split s sep) as [|piece pieces].
    + constructor; [|done]. simpl. by destruct (decide (c = sep)).
    + inversion_clear IH as [|? ? Hp Hps]. constructor; [|done].
      simpl. by destruct (decide (c = sep)).
Qed.

(** Splitting what was joined from pieces without the separator gives the
    pieces back. *)
Lemma Split_Join (l : list string) (sep : Ascii.ascii) :
  l ≠ [] ->
  Forall (fun piece => contains sep piece = false) l ->
  Split (Join l (String sep "")) sep = l.
Proof.
  induction l as [|x l IH]; [done|]. intros _ Hfree.
  inversion_clear Hfree as [|? ? Hx Hl].
  destruct l as [|y l].
  - by apply Split_free.
  - rewrite Join_cons by done. rewrite append_String, append_nil_l.
    rewrite Split_append_sep by done. f_equal. by apply IH.
Qed.

Lemma Join_app (l1 l2 : list string) (sep : string) :
  l1 ≠ [] -> l2 ≠ [] ->
  Join (l1 ++ l2) sep = Join l1 sep +:+ sep +:+ Join l2 sep.
Proof.
  induction l1 as [|x l1 IH]; [done|]. intros _ Hl2.
  destruct l1 as [|y l1].
  - change ([x] ++ l2) with (x :: l2). by rewrite Join_cons.
  - change ((x :: y :: l1) ++ l2) with (x :: ((y :: l1) ++ l2)).
    rewrite !Join_cons by done.
    rewrite IH by done. by rewrite !append_assoc.
Qed.

Lemma HasPrefix_append (prefix rest : string) :
  HasPrefix (prefix +:+ rest) prefix = true.
Proof.
  unfold HasPrefix. induction prefix as [|c p IH].
  - rewrite append_nil_l. by destruct rest.
  - rewrite append_String. simpl.
    destruct (Ascii.ascii_dec c c); [exact IH|done].
Qed.

End gostrings_props.

(** * Properties of the vulnerability table ([setVulnerabilityRows],
    [ColorizeSeverity]) *)
Module rows_props.

Import rows gostrings.

(** X8.  The title of a row is the title of the vulnerability, or its
    description when the title is empty.  With fewer than twelve pieces
    between spaces it is shown whole.  With twelve or more it is cut: what
    is shown is the part before the twelfth space (twelve pieces, verbatim)
    followed by three dots, and the part left out is empty or starts with a
    space; so a title of exactly twelve pieces gets the dots although
    nothing is left out. *)
Theorem cut_title_keeps_twelve_pieces (Title Description : string) :
  let title := if decide (Title = "") then Description else Title in
  let pieces := Split title space in
  (length pieces < 12 -> cut_title Title Description = title) /\
  (12 <= length pieces ->
   exists kept cut,
     title = kept +:+ cut /\
     cut_title Title Description = kept +:+ "..." /\
     Split kept space = take 12 pieces /\
     (length pieces = 12 -> cut = "") /\
     (12 < length pieces -> HasPrefix cut " " = true)).
Proof.
  intros title pieces. unfold cut_title. fold title. fold pieces.
  split.
  - intros Hlt. case_decide; [lia|done].
  - intros Hge. case_decide; [|lia].
    set (kept := Join (take 12 pieces) " ").
    assert (Htake : take 12 pieces ≠ []).
    { intros Hnil.
      assert (Hl : length (take 12 pieces) = 0) by (by rewrite Hnil).
      rewrite length_take in Hl. lia. }
    assert (Hkept : Split kept space = take 12 pieces).
    { apply (gostrings_props.Split_Join (take 12 pieces) space Htake).
      apply Forall_take, gostrings_props.Split_pieces_free. }
    assert (Htitle : title = Join (take 12 pieces ++ drop 12 pieces) " ").
    { rewrite take_drop. symmetry. apply gostrings_props.Join_Split. }
    destruct (drop 12 pieces) as [|d ds] eqn:Hdrop.
    + exists kept, "". rewrite app_nil_r in Htitle.
      rewrite gostrings_props.append_nil_r.
      split; [done|]. split; [done|]. split; [done|].
      split; [done|]. intros Hgt.
      assert (Hl : length (drop 12 pieces) = 0) by (by rewrite Hdrop).
      rewrite length_drop in Hl. lia.
    + exists kept, (" " +:+ Join (d :: ds) " ").
      split; [by rewrite Htitle, gostrings_props.Join_app|].
      split; [done|]. split; [done|]. split.
      * intros Heq.
        assert (Hl : length (drop 12 pieces) = S (length ds))
          by (by rewrite Hdrop).
        rewrite length_drop in Hl. lia.
      * intros _. apply gostrings_props.HasPrefix_append.
Qed.

Section Rows.

Variable filepath_Base : string -> string.
Variable TrimSpace : string -> string.
Variable tml_title_url : string -> string -> string.
Variables FgCyan FgBlue FgYellow FgHiRed FgRed : string -> string.

Local Abbreviation SeverityColor :=
  (rows.SeverityColor FgCyan FgBlue FgYellow FgHiRed FgRed).
Local Abbreviation ColorizeSeverity :=
  (rows.ColorizeSeverity FgCyan FgBlue FgYellow FgHiRed FgRed).
Local Abbreviation setVulnerabilityRow :=
  (rows.setVulnerabilityRow filepath_Base TrimSpace tml_title_url
     FgCyan FgBlue FgYellow FgHiRed FgRed).
Local Abbreviation setVulnerabilityRows :=
  (rows.setVulnerabilityRows filepath_Base TrimSpace tml_title_url
     FgCyan FgBlue FgYellow FgHiRed FgRed).

Lemma ColorizeSeverity_known (value : string) (sev : dbTypes.Severity) :
  ColorizeSeverity value (dbTypes.String sev)
  = (fun colour => colour value) <$> (SeverityColor !! dbTypes.to_nat sev).
Proof. by destruct sev. Qed.

Lemma ColorizeSeverity_unknown (value severity : string) :
  severity ∉ dbTypes.SeverityNames ->
  ColorizeSeverity value severity = Some (FgBlue severity).
Proof.
  intros Hnot. unfold rows.ColorizeSeverity, dbTypes.SeverityNames in *.
  simpl. repeat (case_decide; [subst; exfalso; apply Hnot; set_solver|]).
  done.
Qed.

Lemma ColorizeSeverity_returns (value severity : string) :
  is_Some (ColorizeSeverity value severity).
Proof.
  destruct (decide (severity ∈ dbTypes.SeverityNames)) as [Hin|Hnot].
  - assert (Hsev : exists sev, severity = dbTypes.String sev).
    { unfold dbTypes.SeverityNames in Hin.
      repeat (apply elem_of_cons in Hin as [->|Hin]);
        [by exists dbTypes.SeverityUnknown | by exists dbTypes.SeverityLow
        | by exists dbTypes.SeverityMedium | by exists dbTypes.SeverityHigh
        | by exists dbTypes.SeverityCritical | by apply elem_of_nil in Hin]. }
    destruct Hsev as [sev ->]. rewrite ColorizeSeverity_known. by destruct sev.
  - by rewrite ColorizeSeverity_unknown.
Qed.

(** X9.  [ColorizeSeverity] never reads [SeverityColor] out of range.  A
    severity that is one of the five names gets the colour at the position
    of its name, applied to [value]; any other severity is shown in blue,
    and then it is the severity, not [value], that is shown. *)
Theorem ColorizeSeverity_in_range (value severity : string) :
  is_Some (ColorizeSeverity value severity) /\
  (forall sev, severity = dbTypes.String sev ->
     exists colour,
       SeverityColor !! dbTypes.to_nat sev = Some colour /\
       ColorizeSeverity value severity = Some (colour value)) /\
  (severity ∉ dbTypes.SeverityNames ->
   ColorizeSeverity value severity = Some (FgBlue severity)).
Proof.
  split; [apply ColorizeSeverity_returns|]. split.
  - intros sev ->. rewrite ColorizeSeverity_known.
    destruct sev; by eexists.
  - apply ColorizeSeverity_unknown.
Qed.

Lemma setVulnerabilityRow_effect
    (terminal : bool) (out : Output) (v : Vulnerability) :
  exists row,
    length row = 6 /\
    setVulnerabilityRow terminal out v
    = Some (AddRow row
              (if decide (PkgPath v = "") then out
               else ShowMessageOnce_Do out)).
Proof.
  unfold rows.setVulnerabilityRow.
  destruct (decide (PkgPath v = "")) as [Hp|Hp]; destruct terminal;
    try (eexists; split; [|reflexivity]; reflexivity);
    destruct (ColorizeSeverity_returns (Severity v) (Severity v)) as [c Hc];
    fold ColorizeSeverity; rewrite Hc; simpl;
    (eexists; split; [|reflexivity]; reflexivity).
Qed.

(** X10.  [setVulnerabilityRows] never panics and adds one row of six cells
    (as many as the table has headers) per vulnerability.  Through the
    shared [ShowMessageOnce] the hint about package file names is logged
    once when some vulnerability has a package path and the hint was not
    logged before; otherwise nothing is logged.  So the hint is never logged
    twice, whatever the number of vulnerabilities with a path and of
    calls. *)
Theorem setVulnerabilityRows_rows_and_message
    (terminal : bool) (out : Output) (vulns : list Vulnerability) :
  let with_path := existsb (fun v => negb (bool_decide (PkgPath v = ""))) vulns in
  exists added,
    length added = length vulns /\
    Forall (fun row => length row = length vulnerability_header) added /\
    setVulnerabilityRows terminal out vulns
    = Some {| table := table out ++ added;
              once_done := once_done out || with_path;
              logged := logged out
                        ++ (if negb (once_done out) && with_path
                            then [filename_message] else []) |}.
Proof.
  revert out. induction vulns as [|v vulns IH]; intros out with_path.
  - exists []. split; [done|]. split; [done|]. simpl.
    rewrite !app_nil_r, orb_false_r, andb_false_r, app_nil_r.
    by destruct out.
  - destruct (setVulnerabilityRow_effect terminal out v) as (row & Hrow & Hstep).
    simpl. fold setVulnerabilityRow. rewrite Hstep. simpl.
    fold setVulnerabilityRows.
    destruct (IH (AddRow row (if decide (PkgPath v = "") then out
                              else ShowMessageOnce_Do out)))
      as (added & Hlen & Hcells & Hrest).
    exists (row :: added). split; [simpl; by rewrite Hlen|].
    split; [by constructor|].
    rewrite Hrest. f_equal. unfold with_path. simpl.
    destruct (decide (PkgPath v = "")) as [Hp|Hp].
    + rewrite bool_decide_eq_true_2 by done. simpl.
      f_equal. by rewrite <- app_assoc.
    + rewrite bool_decide_eq_false_2 by done. simpl.
      unfold ShowMessageOnce_Do.
      destruct (once_done out) eqn:Honce; simpl.
      * rewrite Honce. simpl. f_equal. by rewrite <- app_assoc.
      * rewrite app_nil_r. f_equal. by rewrite <- app_assoc.
Qed.

End Rows.

(** Titles of eleven, twelve and fourteen words, run. *)
Example cut_title_runs :
  cut_title "a b c d e f g h i j k" "" = "a b c d e f g h i j k" /\
  cut_title "a b c d e f g h i j k l" "" = "a b c d e f g h i j k l..." /\
  cut_title "" "a b c d e f g h i j k l m n" = "a b c d e f g h i j k l...".
Proof. repeat split; by vm_compute. Qed.

End rows_props.

(** * Properties of the Gradle lockfile parser *)
Module lockfile_props.

Import lockfile gostrings.

Lemma HasPrefix_equals (s : string) :
  HasPrefix s "=" = true -> exists t, s = String equals t.
Proof.
  destruct s as [|c s]; [done|]. unfold HasPrefix.
  change (String.prefix "=" (String c s))
    with (if Ascii.ascii_dec equals c then String.prefix "" s else false).
  destruct (Ascii.ascii_dec equals c) as [<-|]; [|done]. by exists s.
Qed.

Lemma head_Split_prefix (rest : string) :
  exists version tail,
    head (Split rest equals) = Some version /\
    rest = version +:+ tail /\
    contains equals version = false /\
    (tail = "" \/ HasPrefix tail "=" = true).
Proof.
  pose proof (gostrings_props.Join_Split rest equals) as Hjoin.
  pose proof (gostrings_props.Split_pieces_free rest equals) as Hfree.
  destruct (Split rest equals) as [|version others] eqn:Hs.
  { by apply gostrings_props.Split_nonempty in Hs. }
  inversion_clear Hfree as [|? ? Hv _].
  destruct others as [|o os].
  - exists version, "". simpl in Hjoin.
    rewrite gostrings_props.append_nil_r. auto.
  - exists version, ("=" +:+ Join (o :: os) "=").
    rewrite gostrings_props.Join_cons in Hjoin by done.
    split; [done|]. split; [by rewrite <- Hjoin|]. split; [done|].
    right. apply gostrings_props.HasPrefix_append.
Qed.

Section Parser.

Variable TrimSpace : string -> string.
Variable dependency_ID : string -> string -> string.

Local Abbreviation parse_line := (lockfile.parse_line TrimSpace dependency_ID).
Local Abbreviation scan_step := (lockfile.scan_step TrimSpace dependency_ID).
Local Abbreviation collect := (lockfile.collect TrimSpace dependency_ID).

(** What a line that gives a library looks like, and what the library
    holds. *)
Lemma parse_line_Some (lineNum : Z) (text : string) (lib : Library) :
  parse_line lineNum text = Some lib ->
  exists group artifact rest tail,
    HasPrefix (TrimSpace text) "#" = false /\
    Split (TrimSpace text) colon = [group; artifact; rest] /\
    Name lib = group +:+ ":" +:+ artifact /\
    rest = Version lib +:+ tail /\
    (tail = "" \/ HasPrefix tail "=" = true) /\
    contains colon (Version lib) = false /\
    contains equals (Version lib) = false /\
    ID lib = dependency_ID (Name lib) (Version lib) /\
    Locations lib = [{| StartLine := lineNum; EndLine := lineNum |}].
Proof.
  unfold lockfile.parse_line.
  destruct (HasPrefix (TrimSpace text) "#") eqn:Hcomment; [done|].
  case_decide as Hlen; [done|].
  pose proof (gostrings_props.Split_pieces_free (TrimSpace text) colon) as Hfree.
  destruct (Split (TrimSpace text) colon) as [|group [|artifact [|rest [|]]]];
    try (simpl in Hlen; lia).
  simpl. intros [= <-]. simpl.
  destruct (head_Split_prefix rest) as (version & tail & Hhead & Hrest & Hv & Ht).
  rewrite Hhead. simpl.
  exists group, artifact, rest, tail.
  repeat split; try done.
  apply Forall_cons_1 in Hfree as [_ Hfree].
  apply Forall_cons_1 in Hfree as [_ Hfree].
  apply Forall_cons_1 in Hfree as [Hr _].
  rewrite Hrest, gostrings_props.contains_append in Hr.
  by apply orb_false_elim in Hr as [? _].
Qed.

(** The lines behind the libraries collected so far: [ns] holds their
    numbers. *)
Lemma collect_invariant (lines : list string) :
  exists ns : list nat,
    (foldl scan_step (0%Z, []) lines).1
    = goint.wrap (Z.of_nat (length lines)) /\
    Forall2 (fun lib n =>
               1 <= n /\
               exists text,
                 lines !! (n - 1) = Some text /\
                 parse_line (goint.wrap (Z.of_nat n)) text = Some lib)
            (collect lines) ns /\
    Forall (fun n => n <= length lines) ns /\
    (forall i j a b, i < j -> ns !! i = Some a -> ns !! j = Some b -> a < b).
Proof.
  unfold lockfile.collect.
  induction lines as [|text lines IH] using rev_ind.
  - exists []. by repeat split.
  - destruct IH as (ns & Hnum & Hlibs & Hbound & Hinc).
    rewrite foldl_snoc, length_app. simpl.
    set (st := foldl scan_step (0%Z, []) lines) in *.
    assert (Hnext : goint.add st.1 1
                    = goint.wrap (Z.of_nat (length lines + 1))).
    { rewrite Hnum. unfold goint.add. rewrite goint_props.wrap_add_l.
      f_equal. lia. }
    assert (Hold : Forall2 (fun lib n =>
               1 <= n /\
               exists text0,
                 (lines ++ [text]) !! (n - 1) = Some text0 /\
                 parse_line (goint.wrap (Z.of_nat n)) text0 = Some lib)
                     st.2 ns).
    { eapply Forall2_impl; [exact Hlibs|]. simpl.
      intros lib n (Hn & text0 & Hl & Hp). split; [done|].
      exists text0. split; [|done].
      rewrite lookup_app_l; [done|]. by eapply lookup_lt_Some. }
    assert (Hbound' : Forall (fun n => n <= length lines + 1) ns).
    { eapply Forall_impl; [exact Hbound|]. simpl. intros; lia. }
    assert (Hstep : scan_step st text
              = match parse_line (goint.wrap (Z.of_nat (length lines + 1)))
                        text with
                | Some lib =>
                    (goint.wrap (Z.of_nat (length lines + 1)), st.2 ++ [lib])
                | None => (goint.wrap (Z.of_nat (length lines + 1)), st.2)
                end).
    { unfold lockfile.scan_step. by rewrite Hnext. }
    rewrite Hstep.
    destruct (parse_line (goint.wrap (Z.of_nat (length lines + 1))) text)
      as [lib|] eqn:Hparse; simpl.
    + exists (ns ++ [length lines + 1]). split; [done|]. split; [|split].
      * apply Forall2_app; [done|]. constructor; [|done].
        split; [lia|]. exists text. split; [|done].
        replace (length lines + 1 - 1) with (length lines) by lia.
        by rewrite list_lookup_middle.
      * apply Forall_app. split; [done|]. by constructor.
      * intros i j a b Hij Hi Hj.
        pose proof (lookup_lt_Some _ _ _ Hj) as Hjlen.
        rewrite length_app in Hjlen. simpl in Hjlen.
        assert (Hilen : i < length ns) by lia.
        rewrite lookup_app_l in Hi by done.
        destruct (decide (j < length ns)) as [Hjl|Hjl].
        -- rewrite lookup_app_l in Hj by done.
           exact (Hinc i j a b Hij Hi Hj).
        -- rewrite lookup_app_r in Hj by lia.
           replace (j - length ns) with 0 in Hj by lia.
           injection Hj as <-.
           pose proof (proj1 (Forall_forall _ _) Hbound a
                         (list_elem_of_lookup_2 _ _ _ Hi)) as Ha.
           simpl in Ha. lia.
    + exists ns. by repeat split.
Qed.

(** X11.  Every library the parser collects comes from a line that, once
    trimmed, is no comment and has exactly three pieces between colons.  The
    name of the library is the first two pieces joined by a colon, its
    version is the third piece up to its first equals sign (so it holds
    neither a colon nor an equals sign), its identifier is built from that
    name and version, and its one location is the number of the line,
    counted from one over all lines, as start and as end. *)
Theorem collect_library_of_line
    (lines : list string) (i : nat) (lib : Library) :
  collect lines !! i = Some lib ->
  exists n text group artifact rest tail,
    1 <= n <= length lines /\
    lines !! (n - 1) = Some text /\
    HasPrefix (TrimSpace text) "#" = false /\
    Split (TrimSpace text) colon = [group; artifact; rest] /\
    Name lib = group +:+ ":" +:+ artifact /\
    rest = Version lib +:+ tail /\
    (tail = "" \/ HasPrefix tail "=" = true) /\
    contains colon (Version lib) = false /\
    contains equals (Version lib) = false /\
    ID lib = dependency_ID (Name lib) (Version lib) /\
    Locations lib
    = [{| StartLine := goint.wrap (Z.of_nat n);
          EndLine := goint.wrap (Z.of_nat n) |}].
Proof.
  intros Hlib.
  destruct (collect_invariant lines) as (ns & _ & Hlibs & Hbound & _).
  destruct (Forall2_lookup_l _ _ _ _ _ Hlibs Hlib)
    as (n & Hn & Hge & text & Htext & Hparse).
  pose proof (proj1 (Forall_forall _ _) Hbound n
                (list_elem_of_lookup_2 _ _ _ Hn)) as Hle. simpl in Hle.
  destruct (parse_line_Some _ _ _ Hparse)
    as (group & artifact & rest & tail & H1 & H2 & H3 & H4 & H5 & H6 & H7 & H8 & H9).
  exists n, text, group, artifact, rest, tail.
  repeat split; try done; lia.
Qed.

(** X12.  A line [group:artifact:version] or
    [group:artifact:version=classPaths] that is trimmed, is no comment, and
    whose group, artifact, version and class paths hold no colon (and whose
    version holds no equals sign) gives the library with name
    [group:artifact] and that version at the number of the line. *)
Theorem parse_line_of_dependency
    (lineNum : Z) (group artifact version tail : string) :
  let text := group +:+ ":" +:+ artifact +:+ ":" +:+ version +:+ tail in
  TrimSpace text = text ->
  HasPrefix text "#" = false ->
  contains colon group = false ->
  contains colon artifact = false ->
  contains colon (version +:+ tail) = false ->
  contains equals version = false ->
  bool_decide (tail = "") || HasPrefix tail "=" = true ->
  parse_line lineNum text
  = Some {| ID := dependency_ID (group +:+ ":" +:+ artifact) version;
            Name := group +:+ ":" +:+ artifact;
            Version := version;
            Locations := [{| StartLine := lineNum; EndLine := lineNum |}];
            Relationship_ := RelationshipUnknown |}.
Proof.
  intros text Htrim Hcomment Hg Ha Hvt Hv Htail.
  unfold lockfile.parse_line. rewrite Htrim, Hcomment.
  assert (Hsplit : Split text colon = [group; artifact; version +:+ tail]).
  { unfold text.
    change (":" +:+ artifact +:+ ":" +:+ version +:+ tail)
      with (String colon (artifact +:+ ":" +:+ version +:+ tail)).
    rewrite gostrings_props.Split_append_sep by done.
    change (":" +:+ version +:+ tail)
      with (String colon (version +:+ tail)).
    rewrite gostrings_props.Split_append_sep by done.
    by rewrite gostrings_props.Split_free. }
  rewrite Hsplit. simpl.
  assert (Hhead : head (Split (version +:+ tail) equals) = Some version).
  { apply orb_true_iff in Htail as [Ht|Ht].
    - apply bool_decide_eq_true in Ht. subst tail.
      rewrite gostrings_props.append_nil_r.
      by rewrite gostrings_props.Split_free.
    - apply HasPrefix_equals in Ht as [t ->].
      by rewrite gostrings_props.Split_append_sep. }
  by rewrite Hhead.
Qed.


End Parser.

(** The second line of [fixtures.gradle_lines], run against X11. *)
Lemma collect_library_of_line_example :
  lockfile.collect ascii_TrimSpace fixtures.gradle_ID fixtures.gradle_lines !! 0
  = Some fixtures.spring_core /\
  exists n text group artifact rest tail,
    1 <= n <= length fixtures.gradle_lines /\
    fixtures.gradle_lines !! (n - 1) = Some text /\
    HasPrefix (ascii_TrimSpace text) "#" = false /\
    Split (ascii_TrimSpace text) colon = [group; artifact; rest] /\
    Name fixtures.spring_core = group +:+ ":" +:+ artifact /\
    rest = Version fixtures.spring_core +:+ tail /\
    (tail = "" \/ HasPrefix tail "=" = true) /\
    contains colon (Version fixtures.spring_core) = false /\
    contains equals (Version fixtures.spring_core) = false /\
    ID fixtures.spring_core
    = fixtures.gradle_ID (Name fixtures.spring_core)
                         (Version fixtures.spring_core) /\
    Locations fixtures.spring_core
    = [{| StartLine := goint.wrap (Z.of_nat n);
          EndLine := goint.wrap (Z.of_nat n) |}].
Proof.
  assert (H : lockfile.collect ascii_TrimSpace fixtures.gradle_ID
                fixtures.gradle_lines !! 0
              = Some fixtures.spring_core) by (vm_compute; reflexivity).
  split; [exact H|].
  exact (collect_library_of_line ascii_TrimSpace fixtures.gradle_ID
           fixtures.gradle_lines 0 fixtures.spring_core H).
Defined.

(** A dependency line with class paths, run against X12. *)
Lemma parse_line_of_dependency_example :
  ascii_TrimSpace "org.a:lib:1.2=compileClasspath"
  = "org.a:lib:1.2=compileClasspath" /\
  HasPrefix "org.a:lib:1.2=compileClasspath" "#" = false /\
  contains colon "org.a" = false /\
  contains colon "lib" = false /\
  contains colon "1.2=compileClasspath" = false /\
  contains equals "1.2" = false /\
  bool_decide ("=compileClasspath" = "") || HasPrefix "=compileClasspath" "="
  = true /\
  lockfile.parse_line ascii_TrimSpace fixtures.gradle_ID 7
    "org.a:lib:1.2=compileClasspath"
  = Some {| ID := "org.a:lib:1.2";
            Name := "org.a:lib";
            Version := "1.2";
            Locations := [{| StartLine := 7; EndLine := 7 |}];
            Relationship_ := RelationshipUnknown |}.
Proof.
  assert (H1 : ascii_TrimSpace "org.a:lib:1.2=compileClasspath"
               = "org.a:lib:1.2=compileClasspath")
    by (vm_compute; reflexivity).
  assert (H2 : HasPrefix "org.a:lib:1.2=compileClasspath" "#" = false)
    by (vm_compute; reflexivity).
  assert (H3 : contains colon "org.a" = false) by (vm_compute; reflexivity).
  assert (H4 : contains colon "lib" = false) by (vm_compute; reflexivity).
  assert (H5 : contains colon "1.2=compileClasspath" = false)
    by (vm_compute; reflexivity).
  assert (H6 : contains equals "1.2" = false) by (vm_compute; reflexivity).
  assert (H7 : bool_decide ("=compileClasspath" = "")
               || HasPrefix "=compileClasspath" "=" = true)
    by (vm_compute; reflexivity).
  repeat (split; [assumption|]).
  exact (parse_line_of_dependency ascii_TrimSpace fixtures.gradle_ID 7
           "org.a" "lib" "1.2" "=compileClasspath" H1 H2 H3 H4 H5 H6 H7).
Defined.

(** The lockfile [fixtures.gradle_lines], run: the comment and the line of
    empty configurations are skipped, and the libraries keep the numbers of
    their lines. *)
Example collect_gradle_lines :
  (fun lib => (Name lib, Version lib, Locations lib))
    <$> lockfile.collect ascii_TrimSpace fixtures.gradle_ID
          fixtures.gradle_lines
  = [("org.springframework:spring-core", "5.3.1",
      [{| StartLine := 2; EndLine := 2 |}]);
     ("junit:junit", "4.13", [{| StartLine := 3; EndLine := 3 |}])].
Proof. by vm_compute. Qed.

End lockfile_props.

(** * What the entry of an identity holds *)
Module k8s_identity.

Import k8s vocabulary.

Section Aggregator.

Variable ToLower : string -> string.

Local Abbreviation fullname := (k8s.fullname ToLower).
Local Abbreviation index_misconfiguration := (k8s.index_misconfiguration ToLower).
Local Abbreviation merge_vulnerability := (k8s.merge_vulnerability ToLower).
Local Abbreviation consolidate_index := (k8s.consolidate_index ToLower).
Local Abbreviation consolidate := (k8s.consolidate ToLower).

(** The entry the index holds under a key: it starts from the
    misconfiguration resource indexed under the key when there is one, and
    from the first vulnerability resource of the key otherwise, and it holds
    the results of every vulnerability resource of the key. *)
Lemma consolidate_index_entry (r : Report) (k : string) (f : Resource) :
  consolidate_index r !! k = Some f ->
  let ms := filter (λ m, fullname m = k) (Misconfigurations r) in
  let vs := filter (λ v, fullname v = k) (Vulnerabilities r) in
  Results f = default [] (Results <$> last ms) ++ concat (Results <$> vs) /\
  exists origin,
    (last ms = Some origin \/ (last ms = None /\ head vs = Some origin)) /\
    Namespace f = Namespace origin /\ Kind f = Kind origin /\
    Name f = Name origin /\ Error f = Error origin.
Proof.
  intros Hf ms vs. unfold k8s.consolidate_index in Hf.
  pose proof (k8s_props.index_misconfigurations_lookup ToLower
                (Misconfigurations r) ∅ k) as H0.
  fold ms in H0. rewrite lookup_empty in H0.
  destruct (last ms) as [m|] eqn:Hm; simpl.
  - destruct (decide (vs = [])) as [Hnil|Hnn].
    + rewrite k8s_props.merge_fold_no_match in Hf by done.
      rewrite H0 in Hf. injection Hf as <-. rewrite Hnil. simpl.
      rewrite app_nil_r. split; [done|]. exists m. auto.
    + rewrite (k8s_props.merge_fold_existing ToLower _ _ _ _ H0 Hnn) in Hf.
      injection Hf as <-. split; [done|]. exists m. simpl. auto.
  - destruct vs as [|v1 rest] eqn:Hvs.
    + rewrite k8s_props.merge_fold_no_match in Hf by done.
      by rewrite H0 in Hf.
    + rewrite (k8s_more.merge_fold_fresh ToLower _ _ _ v1 rest H0 Hvs) in Hf.
      injection Hf as <-.
      destruct rest as [|v2 rest].
      * simpl. rewrite app_nil_r. split; [done|]. exists v1. auto.
      * split; [done|]. exists v1. simpl. auto.
Qed.


End Aggregator.


(** The same report, run: one entry for the one key, and it is the second
    scan as it was. *)
Example consolidate_collision_run :
  k8s.fullname ascii_ToLower fixtures.upper_case_scan
  = k8s.fullname ascii_ToLower fixtures.lower_case_scan /\
  Findings (k8s.consolidate ascii_ToLower fixtures.collision_report)
  = [fixtures.lower_case_scan].
Proof. split; by vm_compute. Qed.

End k8s_identity.
